(** * log_hooks: logrus hooks with throttled mail alerts

    A shallow embedding of [log_hooks.go].  The package keeps one
    process-wide store [errStore] that maps an alert key to the time the
    key was last stamped, and three logrus hooks: [MailHook] (plain SMTP
    transaction), [MailAuthHook] (one [smtp.SendMail] call) and
    [StderrHook] (console mirror).

    Conventions of the embedding:
    - [time.Time] instants and [time.Duration] are integers [Z] counting
      nanoseconds; [t.Add(d).After(u)] is [u < t + d].
    - [time.Now()] reads an oracle: the n-th reading of the process is
      [clock w n], and every reading advances the counter [ticks w].
    - the remote SMTP endpoint is an oracle too ([Env]): it says which
      step of the transaction is refused; every call that reaches the
      outside is appended to the trace [wire w].
    - a Go [error] is its message; [nil] is [None].
    - [sync.RWMutex] is not modelled: calls are executed one at a time. *)

From Stdlib Require Import ZArith String Ascii List Lia.
From stdpp Require Import gmap strings list fin_maps sorting pretty.

Local Open Scope string_scope.
Local Open Scope Z_scope.

(** ** Go values used by the package *)

Definition error := string.

(** [time.Duration] constants, in nanoseconds. *)
Definition time_Second : Z := 1000000000.
Definition time_Minute : Z := 60 * time_Second.

(** [t.Add(d)] and [t.After(u)] on instants. *)
Definition Time_Add (t d : Z) : Z := t + d.
Definition Time_After (t u : Z) : bool := Z.ltb u t.

(** ** The suppression store *)

(** [type mailErrStore struct { errToTime; generalErr; errToTimeMu }] *)
Record mailErrStore := MkStore {
  errToTime : gmap string Z;
  generalErr : string;
}.

(** Calls that reach the outside of the process, in the order they are
    made.  A dial is recorded when it is attempted, whether or not the
    endpoint accepts it. *)
Inductive Event :=
| EvDialTimeout (addr : string) (timeout : Z)   (* net.DialTimeout("tcp", addr, timeout) *)
| EvConnClose                                   (* conn.Close() *)
| EvDial (addr : string)                        (* smtp.Dial(addr) *)
| EvMail (from : string)                        (* client.Mail(from) *)
| EvRcpt (to : string)                          (* client.Rcpt(to) *)
| EvData                                        (* client.Data() *)
| EvWrite (payload : string)                    (* message.WriteTo(wc) *)
| EvDataClose                                   (* wc.Close() *)
| EvClientClose                                 (* client.Close() *)
| EvSendMail (addr user pass host from : string) (to : list string)
             (msg : string)                     (* smtp.SendMail with smtp.PlainAuth *)
| EvStderr (format : string).                   (* fmt.Fprintf(os.Stderr, format) *)

(** The state of the process and of its environment. *)
Record World := MkWorld {
  errStore : mailErrStore;
  clock : nat -> Z;
  ticks : nat;
  wire : list Event;
}.

(** [var errStore = &mailErrStore{errToTime: make(map...), generalErr: "general"}] *)
Definition errStore_init : mailErrStore :=
  {| errToTime := ∅; generalErr := "general" |}.

Definition World_init (clk : nat -> Z) : World :=
  {| errStore := errStore_init; clock := clk; ticks := 0%nat; wire := [] |}.

(** A small state monad over [World]. *)
Definition M (A : Type) : Type := World -> A * World.

Definition ret {A} (a : A) : M A := fun w => (a, w).
Definition bind {A B} (m : M A) (k : A -> M B) : M B :=
  fun w => let (a, w') := m w in k a w'.

Notation "'let*' x ':=' m 'in' k" := (bind m (fun x => k))
  (at level 10, x name, m at level 100, k at level 200).
Notation "m ';;' k" := (bind m (fun _ => k))
  (at level 100, k at level 200, right associativity).

Definition result {A} (m : M A) (w : World) : A := fst (m w).
Definition after {A} (m : M A) (w : World) : World := snd (m w).

(** [time.Now()] *)
Definition time_Now : M Z :=
  fun w => (clock w (ticks w),
            {| errStore := errStore w; clock := clock w;
               ticks := S (ticks w); wire := wire w |}).

(** An observable call to the outside. *)
Definition add_wire (w : World) (evs : list Event) : World :=
  {| errStore := errStore w; clock := clock w; ticks := ticks w;
     wire := (wire w ++ evs)%list |}.

Definition emit (e : Event) : M unit := fun w => (tt, add_wire w [e]).

Definition get_store : M mailErrStore := fun w => (errStore w, w).

Definition put_errToTime (m : gmap string Z) : M unit :=
  fun w => (tt, {| errStore := {| errToTime := m;
                                  generalErr := generalErr (errStore w) |};
                   clock := clock w; ticks := ticks w; wire := wire w |}).

(** [func (es *mailErrStore) saveErrorTime(error string)]:
    [es.errToTime[error] = time.Now()] *)
Definition saveErrorTime (key : string) : M unit :=
  let* es := get_store in
  let* now := time_Now in
  put_errToTime (<[key := now]> (errToTime es)).

(** ** Log entries *)

(** [logrus.Level] is a [uint32]. *)
Definition Level := N.
Definition PanicLevel : Level := 0%N.
Definition FatalLevel : Level := 1%N.
Definition ErrorLevel : Level := 2%N.
Definition WarnLevel : Level := 3%N.
Definition InfoLevel : Level := 4%N.
Definition DebugLevel : Level := 5%N.
Definition TraceLevel : Level := 6%N.

(** [func (level Level) String() string] of logrus. *)
Definition Level_String (l : Level) : string :=
  match l with
  | 0%N => "panic"
  | 1%N => "fatal"
  | 2%N => "error"
  | 3%N => "warning"
  | 4%N => "info"
  | 5%N => "debug"
  | 6%N => "trace"
  | _ => "unknown"
  end.

(** The values a field of [logrus.Fields] (a [map[string]interface{}])
    holds in this model: the scalars [encoding/json] can write, and
    [VChan] for a value it cannot (a channel). *)
Inductive GoValue :=
| VNil
| VBool (b : bool)
| VInt (n : Z)
| VString (s : string)
| VChan.

(** What [entry.Time] shows in its location: the results of [t.Date()],
    [t.Clock()] and the offset of [t.Zone()] in seconds. *)
Record EntryTime := MkEntryTime {
  year : Z; month : Z; day : Z;
  hour : Z; minute : Z; second : Z;
  zoneOffset : Z;
}.

(** [logrus.Entry], the fields the package reads. *)
Record Entry := MkEntry {
  Data : gmap string GoValue;
  Time : EntryTime;
  EntryLevel : Level;
  Message : string;
}.

(** ** Characters and strings *)

Definition dquote : ascii := "034"%char.
Definition LF : string := String "010"%char "".
Definition CR : string := String "013"%char "".
Definition TAB : string := String "009"%char "".
Definition CRLF : string := CR +:+ LF.

(** [strconv.Itoa] *)
Definition strconv_Itoa (n : Z) : string := pretty n.

(** [appendInt(b, x, width)] of package [time]: decimal, zero padded. *)
Definition appendInt (x : Z) (width : nat) : string :=
  let digits := pretty (Z.abs x) in
  let pad := String.concat "" (replicate (width - String.length digits) "0") in
  (if (x <? 0)%Z then "-" else "") +:+ pad +:+ digits.

(** [t.Format("2006-01-02 15:04:05-0700")] *)
Definition Time_Format_layout (t : EntryTime) : string :=
  let zone := zoneOffset t `quot` 60 in
  appendInt (year t) 4 +:+ "-" +:+ appendInt (month t) 2 +:+ "-" +:+
  appendInt (day t) 2 +:+ " " +:+
  appendInt (hour t) 2 +:+ ":" +:+ appendInt (minute t) 2 +:+ ":" +:+
  appendInt (second t) 2 +:+
  (if (zone <? 0)%Z then "-" else "+") +:+
  appendInt (Z.abs zone `quot` 60) 2 +:+ appendInt (Z.abs zone `rem` 60) 2.

(** ** [encoding/json] on a field map *)

Definition hexdigit (n : N) : ascii :=
  match String.get (N.to_nat n) "0123456789abcdef" with
  | Some c => c
  | None => "0"%char
  end.

(** One byte of a JSON string, as [encoding/json] writes it with HTML
    escaping on.  Bytes from 0x80 up are copied: the text is taken to be
    valid UTF-8. *)
Definition json_byte (c : ascii) : string :=
  let n := N_of_ascii c in
  if (n =? 34)%N then String "\"%char (String dquote "")
  else if (n =? 92)%N then "\\"
  else if (n =? 10)%N then "\n"
  else if (n =? 13)%N then "\r"
  else if (n =? 9)%N then "\t"
  else if ((n <? 32) || (n =? 60) || (n =? 62) || (n =? 38))%N then
    "\u00" +:+ String (hexdigit (n / 16)) (String (hexdigit (n mod 16)) "")
  else String c "".

Fixpoint json_bytes (s : string) : string :=
  match s with
  | EmptyString => ""
  | String c s' => json_byte c +:+ json_bytes s'
  end.

Definition json_string (s : string) : string :=
  String dquote (json_bytes s) +:+ String dquote "".

(** A scalar; [None] is [*json.UnsupportedTypeError]. *)
Definition json_value (v : GoValue) : option string :=
  match v with
  | VNil => Some "null"
  | VBool true => Some "true"
  | VBool false => Some "false"
  | VInt n => Some (pretty n)
  | VString s => Some (json_string s)
  | VChan => None
  end.

(** Keys of a map are written in byte order. *)
Definition key_le (a b : string * GoValue) : Prop :=
  String.leb (fst a) (fst b) = true.

#[global] Instance key_le_dec a b : Decision (key_le a b).
Proof. unfold key_le. apply _. Defined.

Definition sorted_fields (m : gmap string GoValue) : list (string * GoValue) :=
  merge_sort key_le (map_to_list m).

(** The members of an object, one per line, at one level of indentation. *)
Fixpoint json_members (indent : string) (l : list (string * GoValue))
  : option string :=
  match l with
  | [] => Some ""
  | (k, v) :: rest =>
      match json_value v, json_members indent rest with
      | Some jv, Some jr =>
          Some (LF +:+ indent +:+ json_string k +:+ ": " +:+ jv +:+
                match rest with [] => "" | _ => "," end +:+ jr)
      | _, _ => None
      end
  end.

(** [json.MarshalIndent(fields, "", indent)] for a non-nil field map. *)
Definition json_MarshalIndent (m : gmap string GoValue) (indent : string)
  : option string :=
  match sorted_fields m with
  | [] => Some "{}"
  | l => match json_members indent l with
         | Some body => Some ("{" +:+ body +:+ LF +:+ "}")
         | None => None
         end
  end.

(** ** Library functions and the outside world *)

(** [logrus.TextFormatter]; the source only sets [FullTimestamp]. *)
Record TextFormatter := MkTextFormatter { FullTimestamp : bool }.

(** Functions of the Go libraries that the package calls and whose code
    is not part of it.  [debug_Stack] is the text [debug.Stack()] returns
    in the calling goroutine. *)
Class GoLib := {
  debug_Stack : string;
  TextFormatter_Format : TextFormatter -> Entry -> string * option error;
  net_SplitHostPort : string -> (string * string) + error;
  strconv_Atoi : string -> Z + error;
  mail_ParseAddress : string -> option error;
}.

(** How the outside answers during one call: [None] accepts the step,
    [Some err] refuses it with [err]. *)
Record Env := MkEnv {
  dial_timeout_err : option error;   (* net.DialTimeout *)
  dial_err : option error;           (* smtp.Dial *)
  mail_err : option error;           (* client.Mail *)
  rcpt_err : option error;           (* client.Rcpt *)
  data_err : option error;           (* client.Data *)
  write_err : option error;          (* message.WriteTo(wc) *)
  sendmail_err : option error;       (* smtp.SendMail *)
  stderr_err : option error;         (* fmt.Fprintf(os.Stderr, ...) *)
}.

(** [strings.ToLower] on ASCII letters. *)
Definition lower_byte (c : ascii) : ascii :=
  let n := N_of_ascii c in
  if ((65 <=? n) && (n <=? 90))%N then ascii_of_N (n + 32) else c.

Fixpoint strings_ToLower (s : string) : string :=
  match s with
  | EmptyString => ""
  | String c s' => String (lower_byte c) (strings_ToLower s')
  end.

(** [logrus.ParseLevel] *)
Definition logrus_ParseLevel (lvl : string) : Level + error :=
  let l := strings_ToLower lvl in
  if String.eqb l "panic" then inl PanicLevel
  else if String.eqb l "fatal" then inl FatalLevel
  else if String.eqb l "error" then inl ErrorLevel
  else if String.eqb l "warn" || String.eqb l "warning" then inl WarnLevel
  else if String.eqb l "info" then inl InfoLevel
  else if String.eqb l "debug" then inl DebugLevel
  else if String.eqb l "trace" then inl TraceLevel
  else inr ("not a valid logrus Level: " +:+ lvl).

(** ** The suppression policy *)

(** [func (es *mailErrStore) markErrAsSent(entry *logrus.Entry)] *)
Definition markErrAsSent (entry : Entry) : M unit :=
  let* es := get_store in
  saveErrorTime (generalErr es) ;;
  saveErrorTime (Message entry).

(** [func (es *mailErrStore) checkErrorTime(error string, duration time.Duration) bool] *)
Definition checkErrorTime (key : string) (duration : Z) : M bool :=
  let* es := get_store in
  match errToTime es !! key with
  | Some errTime =>
      let* now := time_Now in
      if Time_After (Time_Add errTime duration) now then ret false
      else ret true
  | None => ret true
  end.

(** [func (es *mailErrStore) canSendMail(entry *logrus.Entry) bool] *)
Definition canSendMail (entry : Entry) : M bool :=
  let* es := get_store in
  let* ok := checkErrorTime (generalErr es) time_Minute in
  if negb ok then ret false else
  let* ok := checkErrorTime (Message entry) (10 * time_Minute) in
  if negb ok then ret false else
  ret true.

(** ** The mail payload *)

Section Message.

Context `{GoLib}.

(** [func createMessage(entry *logrus.Entry, appname string) *bytes.Buffer];
    the error of [json.MarshalIndent] is dropped and [data] is then empty. *)
Definition createMessage (entry : Entry) (appname : string) : string :=
  let subject := appname +:+ " - " +:+ Level_String (EntryLevel entry) in
  let data := default "" (json_MarshalIndent (Data entry) TAB) in
  let body := "TIME: " +:+ Time_Format_layout (Time entry) +:+ LF +:+
              "MESSAGE: " +:+ Message entry +:+ LF +:+ LF +:+
              "DATA: " +:+ data +:+ LF +:+ LF +:+
              "STACKTRACE: " +:+ LF +:+ debug_Stack in
  "Subject: " +:+ subject +:+ CRLF +:+ CRLF +:+ body.

End Message.

(** ** [MailHook]: mail without authentication *)

Module MailHook.

Record t := Mk {
  appName : string;
  host : string;
  port : Z;
  sender : string;
  recipient : string;
}.

Section Methods.

Context `{GoLib}.

(** [func (hook *MailHook) Fire(entry *logrus.Entry) error].
    The two [defer]red closes run on the way out, the writer's before
    the client's. *)
Definition Fire (env : Env) (hook : t) (entry : Entry) : M (option error) :=
  emit (EvDial (host hook +:+ ":" +:+ strconv_Itoa (port hook))) ;;
  match dial_err env with
  | Some err => ret (Some err)
  | None =>
    let* r :=
      (let* ok := canSendMail entry in
       if negb ok then ret None else
       emit (EvMail (sender hook)) ;;
       match mail_err env with
       | Some err => ret (Some err)
       | None =>
         emit (EvRcpt (recipient hook)) ;;
         match rcpt_err env with
         | Some err => ret (Some err)
         | None =>
           emit EvData ;;
           match data_err env with
           | Some err => ret (Some err)
           | None =>
             let* r :=
               (markErrAsSent entry ;;
                let message := createMessage entry (appName hook) in
                emit (EvWrite message) ;;
                match write_err env with
                | Some err => ret (Some err)
                | None => ret None
                end) in
             emit EvDataClose ;;
             ret r
           end
         end
       end) in
    emit EvClientClose ;;
    ret r
  end.

(** [func (hook *MailHook) Levels() []logrus.Level] *)
Definition Levels (hook : t) : list Level :=
  [WarnLevel; PanicLevel; FatalLevel; ErrorLevel].

End Methods.

End MailHook.

(** ** [MailAuthHook]: mail with authentication *)

Module MailAuthHook.

Record t := Mk {
  appName : string;
  host : string;
  port : Z;
  sender : string;
  recipient : string;
  username : string;
  password : string;
}.

Section Methods.

Context `{GoLib}.

(** [func (hook *MailAuthHook) Fire(entry *logrus.Entry) error] *)
Definition Fire (env : Env) (hook : t) (entry : Entry) : M (option error) :=
  let* ok := canSendMail entry in
  if negb ok then ret None else
  let message := createMessage entry (appName hook) in
  markErrAsSent entry ;;
  emit (EvSendMail (host hook +:+ ":" +:+ strconv_Itoa (port hook))
                   (username hook) (password hook) (host hook)
                   (sender hook) [recipient hook] message) ;;
  match sendmail_err env with
  | Some err => ret (Some err)
  | None => ret None
  end.

(** [func (hook *MailAuthHook) Levels() []logrus.Level] *)
Definition Levels (hook : t) : list Level :=
  [WarnLevel; PanicLevel; FatalLevel; ErrorLevel].

End Methods.

End MailAuthHook.

(** ** [StderrHook]: the console mirror *)

Module StderrHook.

Record t := Mk { textFormater : TextFormatter }.

Section Methods.

Context `{GoLib}.

(** [fmt.Fprintf(os.Stderr, format)]: the error it returns (the byte
    count is not modelled). *)
Definition Fprintf_stderr (env : Env) (format : string)
  : M (option error) :=
  emit (EvStderr format) ;;
  ret (stderr_err env).

(** [func (hook *StderrHook) Fire(entry *logrus.Entry) (err error)]:
    the named result [err] is the formatter's; both results of
    [Fprintf] are discarded. *)
Definition Fire (env : Env) (hook : t) (entry : Entry) : M (option error) :=
  let '(line, err) := TextFormatter_Format (textFormater hook) entry in
  match err with
  | None =>
      let* _ := Fprintf_stderr env (line +:+ debug_Stack) in
      ret err
  | Some _ => ret err
  end.

(** [func (hook *StderrHook) Levels() []logrus.Level] *)
Definition Levels (hook : t) : list Level :=
  [WarnLevel; PanicLevel; FatalLevel; ErrorLevel].

End Methods.

End StderrHook.

(** ** The logger and its hooks *)

(** [logrus.Hook]: the three implementations of the package. *)
Inductive Hook :=
| HMail (h : MailHook.t)
| HMailAuth (h : MailAuthHook.t)
| HStderr (h : StderrHook.t).

Inductive Writer := os_Stdout | os_Stderr.

Inductive Formatter :=
| JSONFormatter
| TextFormatterOf (f : TextFormatter).

(** [logrus.Logger]; [Hooks] is a [LevelHooks], a [map[Level][]Hook]. *)
Record Logger := MkLogger {
  Out : Writer;
  Hooks : gmap N (list Hook);
  LogFormatter : Formatter;
  LogLevel : Level;
}.

(** [logrus.New()] *)
Definition logrus_New : Logger :=
  {| Out := os_Stderr; Hooks := ∅;
     LogFormatter := TextFormatterOf (MkTextFormatter false);
     LogLevel := InfoLevel |}.

Definition set_Out (log : Logger) (o : Writer) : Logger :=
  {| Out := o; Hooks := Hooks log; LogFormatter := LogFormatter log;
     LogLevel := LogLevel log |}.

(** [log.SetLevel] *)
Definition SetLevel (log : Logger) (l : Level) : Logger :=
  {| Out := Out log; Hooks := Hooks log; LogFormatter := LogFormatter log;
     LogLevel := l |}.

(** [log.SetFormatter] *)
Definition SetFormatter (log : Logger) (f : Formatter) : Logger :=
  {| Out := Out log; Hooks := Hooks log; LogFormatter := f;
     LogLevel := LogLevel log |}.

Section Dispatch.

Context `{GoLib}.

Definition Hook_Levels (h : Hook) : list Level :=
  match h with
  | HMail h => MailHook.Levels h
  | HMailAuth h => MailAuthHook.Levels h
  | HStderr h => StderrHook.Levels h
  end.

Definition Hook_Fire (env : Env) (h : Hook) (entry : Entry) : M (option error) :=
  match h with
  | HMail h => MailHook.Fire env h entry
  | HMailAuth h => MailAuthHook.Fire env h entry
  | HStderr h => StderrHook.Fire env h entry
  end.

(** [func (hooks LevelHooks) Add(hook Hook)] of logrus:
    [hooks[level] = append(hooks[level], hook)] for each of its levels. *)
Definition LevelHooks_Add (hooks : gmap N (list Hook)) (hook : Hook)
  : gmap N (list Hook) :=
  fold_left (fun (hs : gmap N (list Hook)) (level : Level) =>
               <[level := (default [] (hs !! level) ++ [hook])%list]> hs)
            (Hook_Levels hook) hooks.

(** [func (hooks LevelHooks) Fire(level Level, entry *Entry) error] of
    logrus: the hooks of the level in turn, up to the first error. *)
Fixpoint fire_all (env : Env) (hs : list Hook) (entry : Entry)
  : M (option error) :=
  match hs with
  | [] => ret None
  | h :: rest =>
      let* err := Hook_Fire env h entry in
      match err with
      | Some e => ret (Some e)
      | None => fire_all env rest entry
      end
  end.

Definition LevelHooks_Fire (env : Env) (hooks : gmap N (list Hook))
           (level : Level) (entry : Entry) : M (option error) :=
  fire_all env (default [] (hooks !! level)) entry.

Definition Hooks_Add (log : Logger) (hook : Hook) : Logger :=
  {| Out := Out log; Hooks := LevelHooks_Add (Hooks log) hook;
     LogFormatter := LogFormatter log; LogLevel := LogLevel log |}.

(** ** Construction and setup

    A constructor returns a pointer and an error of which exactly one
    is [nil]: [inl] is the hook, [inr] the error. *)

(** [func checkMailHookParams(host string, port int, sender string, recipient string) error];
    the connection is closed on the way out once the dial succeeded. *)
Definition checkMailHookParams (env : Env) (host : string) (port : Z)
           (sender recipient : string) : M (option error) :=
  emit (EvDialTimeout (host +:+ ":" +:+ strconv_Itoa port) (3 * time_Second)) ;;
  match dial_timeout_err env with
  | Some err => ret (Some err)
  | None =>
    let r :=
      match mail_ParseAddress sender with
      | Some err => Some err
      | None =>
        match mail_ParseAddress recipient with
        | Some err => Some err
        | None => None
        end
      end in
    emit EvConnClose ;;
    ret r
  end.

(** [func NewMailHook(appname, host string, port int, sender, recipient string)], returning a [*MailHook] and an [error] *)
Definition NewMailHook (env : Env) (appname host : string) (port : Z)
           (sender recipient : string) : M (MailHook.t + error) :=
  let* err := checkMailHookParams env host port sender recipient in
  match err with
  | Some e => ret (inr e)
  | None =>
      ret (inl {| MailHook.appName := appname; MailHook.host := host;
                  MailHook.port := port; MailHook.sender := sender;
                  MailHook.recipient := recipient |})
  end.

(** [func NewStderrHook()], returning a [*StderrHook] and an [error] *)
Definition NewStderrHook : StderrHook.t + error :=
  inl {| StderrHook.textFormater := MkTextFormatter false |}.

(** [func UsefulSetupLogrus(log *logrus.Logger, mailHostPort, format, level, appName, sender, recipient string) error].
    The logger is reached through a pointer: the result carries the
    logger as the call leaves it, next to the error. *)
Definition UsefulSetupLogrus (env : Env) (log : Logger)
           (mailHostPort format level appName sender recipient : string)
  : M (Logger * option error) :=
  let log := set_Out log os_Stdout in
  match net_SplitHostPort mailHostPort with
  | inr err => ret (log, Some err)
  | inl (host, strPort) =>
  match strconv_Atoi strPort with
  | inr err => ret (log, Some err)
  | inl port =>
  match logrus_ParseLevel level with
  | inr err => ret (log, Some err)
  | inl logLevel =>
  let log := SetLevel log logLevel in
  match NewStderrHook with
  | inr err => ret (log, Some err)
  | inl stderrHook =>
  let log := Hooks_Add log (HStderr stderrHook) in
  let* r := NewMailHook env appName host port sender recipient in
  match r with
  | inr err => ret (log, Some err)
  | inl mailHook =>
  let log := Hooks_Add log (HMail mailHook) in
  if String.eqb format "json" then
    ret (SetFormatter log JSONFormatter, None)
  else
    let customFormatter := MkTextFormatter true in
    ret (SetFormatter log (TextFormatterOf customFormatter), None)
  end end end end end.

End Dispatch.

(** ** A reference instance of the library functions

    Used to run the package on concrete inputs.  [ref_SplitHostPort]
    follows [net.SplitHostPort] on addresses without brackets,
    [ref_Atoi] follows [strconv.Atoi] on decimal numerals, and
    [ref_ParseAddress] only asks for one at-sign with text on both sides.
    [ref_Format] is a short stand-in for the text formatter of logrus,
    which never returns an error. *)

Fixpoint split_last_colon (s : string) : option (string * string) :=
  match s with
  | EmptyString => None
  | String c s' =>
      match split_last_colon s' with
      | Some (h, p) => Some (String c h, p)
      | None => if Ascii.eqb c ":" then Some ("", s') else None
      end
  end.

Fixpoint has_byte (c : ascii) (s : string) : bool :=
  match s with
  | EmptyString => false
  | String d s' => Ascii.eqb c d || has_byte c s'
  end.

Definition ref_SplitHostPort (hostport : string) : (string * string) + error :=
  match split_last_colon hostport with
  | None => inr ("address " +:+ hostport +:+ ": missing port in address")
  | Some (h, p) =>
      if has_byte "[" hostport || has_byte "]" hostport then
        inr ("address " +:+ hostport +:+ ": bracketed host")
      else if has_byte ":" h then
        inr ("address " +:+ hostport +:+ ": too many colons in address")
      else inl (h, p)
  end.

Fixpoint digits_value (s : string) (acc : Z) : option Z :=
  match s with
  | EmptyString => Some acc
  | String c s' =>
      let n := Z.of_N (N_of_ascii c) in
      if (48 <=? n) && (n <=? 57) then digits_value s' (10 * acc + (n - 48))
      else None
  end.

Definition ref_Atoi (s : string) : Z + error :=
  let bad := inr ("strconv.Atoi: parsing " +:+ s +:+ ": invalid syntax") in
  let number (sign : Z) (ds : string) :=
    match ds with
    | EmptyString => bad
    | _ => match digits_value ds 0 with
           | Some v =>
               if (- 2 ^ 63 <=? sign * v) && (sign * v <? 2 ^ 63)
               then inl (sign * v)
               else inr ("strconv.Atoi: parsing " +:+ s +:+
                         ": value out of range")
           | None => bad
           end
    end in
  match s with
  | String "-" ds => number (-1) ds
  | String "+" ds => number 1 ds
  | _ => number 1 s
  end.

Definition ref_ParseAddress (s : string) : option error :=
  match String.index 0 "@" s with
  | Some (S n) =>
      if (S (S n) <? String.length s)%nat &&
         negb (has_byte "@" (String.substring (S (S n)) (String.length s) s))
      then None
      else Some "mail: missing '@' or angle-addr"
  | _ => Some "mail: missing '@' or angle-addr"
  end.

Definition ref_Format (f : TextFormatter) (e : Entry) : string * option error :=
  ("level=" +:+ Level_String (EntryLevel e) +:+ " msg=" +:+ Message e +:+ LF,
   None).

Definition ref_lib : GoLib :=
  {| debug_Stack := "goroutine 1 [running]:" +:+ LF;
     TextFormatter_Format := ref_Format;
     net_SplitHostPort := ref_SplitHostPort;
     strconv_Atoi := ref_Atoi;
     mail_ParseAddress := ref_ParseAddress |}.

(** An endpoint that accepts every step. *)
Definition env_ok : Env :=
  {| dial_timeout_err := None; dial_err := None; mail_err := None;
     rcpt_err := None; data_err := None; write_err := None;
     sendmail_err := None; stderr_err := None |}.

(** ** Predicates and inputs used in the statements *)

(** What a permitted key looks like: never stamped, or stamped at least a
    window ago. *)
Definition permitted (m : gmap string Z) (key : string) (window now : Z)
  : Prop :=
  m !! key = None ∨ ∃ t, m !! key = Some t ∧ t + window <= now.

(** A write to the error stream that fails, on a concrete record. *)
Definition env_stderr_closed : Env :=
  {| dial_timeout_err := None; dial_err := None; mail_err := None;
     rcpt_err := None; data_err := None; write_err := None;
     sendmail_err := None;
     stderr_err := Some "write /dev/stderr: file already closed" |}.

Definition entry_disk_full : Entry :=
  {| Data := ∅; Time := MkEntryTime 2024 3 9 7 5 0 3600;
     EntryLevel := ErrorLevel; Message := "disk full" |}.

Definition MailHook_addr (hook : MailHook.t) : string :=
  MailHook.host hook +:+ ":" +:+ strconv_Itoa (MailHook.port hook).

(** A call of [Fire] that reaches [markErrAsSent]. *)
Definition marks (env : Env) (h : Hook) (e : Entry) (w : World) : Prop :=
  match h with
  | HMail _ =>
      dial_err env = None ∧ result (canSendMail e) w = true ∧
      mail_err env = None ∧ rcpt_err env = None ∧ data_err env = None
  | HMailAuth _ => result (canSendMail e) w = true
  | HStderr _ => False
  end.

(** Every clock reading a check started in [w] can make lies inside the
    window opened at [stamp]. *)
Definition within (w : World) (stamp window : Z) : Prop :=
  ∀ k, (ticks w ≤ k ≤ S (ticks w))%nat → clock w k < stamp + window.


Definition hook_plain : MailHook.t :=
  MailHook.Mk "svc" "localhost" 25 "alerts@example.org" "ops@example.org".

Definition hook_auth : MailAuthHook.t :=
  MailAuthHook.Mk "svc" "localhost" 25 "alerts@example.org" "ops@example.org"
                  "alerts" "secret".

(** The server refuses the recipient. *)
Definition env_rcpt_refused : Env :=
  {| dial_timeout_err := None; dial_err := None; mail_err := None;
     rcpt_err := Some "550 5.1.1 recipient rejected";
     data_err := None; write_err := None;
     sendmail_err := None; stderr_err := None |}.

(** Nothing listens on the port. *)
Definition env_dial_refused : Env :=
  {| dial_timeout_err := Some "dial tcp 127.0.0.1:25: connect: connection refused";
     dial_err := Some "dial tcp 127.0.0.1:25: connect: connection refused";
     mail_err := None; rcpt_err := None; data_err := None; write_err := None;
     sendmail_err := None; stderr_err := None |}.

(** The authenticated send fails. *)
Definition env_sendmail_refused : Env :=
  {| dial_timeout_err := None; dial_err := None; mail_err := None;
     rcpt_err := None; data_err := None; write_err := None;
     sendmail_err := Some "550 5.1.1 recipient rejected";
     stderr_err := None |}.

(** The payload cannot be written once the server accepted [DATA]. *)
Definition env_write_broken : Env :=
  {| dial_timeout_err := None; dial_err := None; mail_err := None;
     rcpt_err := None; data_err := None;
     write_err := Some "write tcp: broken pipe";
     sendmail_err := None; stderr_err := None |}.

(** A fresh process whose clock stands still, and the same process once
    the record [entry_disk_full] has been stamped. *)
Definition world_fresh : World := World_init (fun _ => 0).
Definition world_stamped : World := after (markErrAsSent entry_disk_full) world_fresh.

(** A process whose clock shows one hour and moves on by one nanosecond
    with every reading. *)
Definition world_one_hour : World :=
  World_init (fun n => 3600 * time_Second + Z.of_nat n).


(** The setup as an all-or-nothing step: an error would leave the logger
    as it was passed in. *)
Definition setup_leaves_logger_untouched `{GoLib} (env : Env) (log : Logger)
           (mailHostPort format level appName sender recipient : string)
           (w : World) : Prop :=
  ∀ log' err,
    result (UsefulSetupLogrus env log mailHostPort format level appName
                              sender recipient) w = (log', Some err) →
    log' = log.

(** [needle] occurs in [hay]. *)
Definition contains (hay needle : string) : Prop :=
  ∃ pre post, hay = pre +:+ needle +:+ post.

Fixpoint prefixb (p s : string) : bool :=
  match p, s with
  | EmptyString, _ => true
  | String a p', String b s' => Ascii.eqb a b && prefixb p' s'
  | String _ _, EmptyString => false
  end.

Fixpoint containsb (hay needle : string) : bool :=
  prefixb needle hay ||
  match hay with
  | EmptyString => false
  | String _ hay' => containsb hay' needle
  end.

(** The message carries a JSON rendering of the record's fields. *)
Definition message_renders_fields `{GoLib} (e : Entry) (appname : string)
  : Prop :=
  ∃ data, json_MarshalIndent (Data e) TAB = Some data ∧
          contains (createMessage e appname) ("DATA: " +:+ data).

Definition quoted (s : string) : string :=
  String dquote "" +:+ s +:+ String dquote "".

(** The record of the round trip: fields user and count, level error. *)
Definition entry_round_trip : Entry :=
  {| Data := <["user" := VString "a"]> (<["count" := VInt 3]> ∅);
     Time := MkEntryTime 2024 3 9 7 5 0 3600;
     EntryLevel := ErrorLevel; Message := "boom" |}.

(** A record with a field the encoder refuses. *)
Definition entry_with_channel : Entry :=
  {| Data := <["done" := VChan]> ∅;
     Time := MkEntryTime 2024 3 9 7 5 0 3600;
     EntryLevel := ErrorLevel; Message := "boom" |}.

(** ** Definitions used by the further properties *)

(** The process as it is found later: the store it holds, another clock
    position, another trace. *)
Definition later (store : mailErrStore) (clk : nat -> Z) (n : nat)
           (evs : list Event) : World :=
  {| errStore := store; clock := clk; ticks := n; wire := evs |}.

(** The first error of a sequence of steps. *)
Fixpoint first_error (steps : list (option error)) : option error :=
  match steps with
  | [] => None
  | Some err :: _ => Some err
  | None :: rest => first_error rest
  end.

(** A record whose text is the global key. *)
Definition entry_general : Entry :=
  {| Data := ∅; Time := MkEntryTime 2024 3 9 7 7 0 3600;
     EntryLevel := WarnLevel; Message := "general" |}.

(** * Properties *)

(** ** The definitions on small inputs *)

Example Time_Format_layout_paris :
  Time_Format_layout (MkEntryTime 2024 3 9 7 5 0 3600)
  = "2024-03-09 07:05:00+0100".
Proof. reflexivity. Qed.

Example Time_Format_layout_newfoundland :
  Time_Format_layout (MkEntryTime 1999 12 31 23 59 59 (-12600))
  = "1999-12-31 23:59:59-0330".
Proof. reflexivity. Qed.

Example json_MarshalIndent_round_trip :
  json_MarshalIndent (Data entry_round_trip) TAB
  = Some ("{" +:+ LF +:+ TAB +:+ quoted "count" +:+ ": 3," +:+
          LF +:+ TAB +:+ quoted "user" +:+ ": " +:+ quoted "a" +:+
          LF +:+ "}").
Proof. vm_compute. reflexivity. Qed.

Example json_MarshalIndent_empty : json_MarshalIndent ∅ TAB = Some "{}".
Proof. vm_compute. reflexivity. Qed.

Example json_string_escapes :
  json_string ("a<b" +:+ LF) = quoted "a\u003cb\n".
Proof. vm_compute. reflexivity. Qed.

Example logrus_ParseLevel_warning :
  logrus_ParseLevel "WARNING" = inl WarnLevel ∧
  logrus_ParseLevel "verbose" = inr "not a valid logrus Level: verbose".
Proof. split; reflexivity. Qed.

Example canSendMail_fresh_process :
  result (canSendMail entry_disk_full) world_fresh = true.
Proof. reflexivity. Qed.

Example canSendMail_after_ten_minutes :
  result (canSendMail entry_disk_full)
         {| errStore := errStore world_stamped;
            clock := fun _ => 10 * time_Minute; ticks := 0%nat; wire := [] |}
  = true ∧
  result (canSendMail entry_disk_full)
         {| errStore := errStore world_stamped;
            clock := fun _ => 10 * time_Minute - 1; ticks := 0%nat;
            wire := [] |}
  = false.
Proof. split; vm_compute; reflexivity. Qed.

Example UsefulSetupLogrus_succeeds :
  result (UsefulSetupLogrus (H := ref_lib) env_ok logrus_New
            "localhost:25" "json" "debug" "svc"
            "alerts@example.org" "ops@example.org") world_fresh
  = (SetFormatter
       (Hooks_Add
          (Hooks_Add (SetLevel (set_Out logrus_New os_Stdout) DebugLevel)
                     (HStderr (StderrHook.Mk (MkTextFormatter false))))
          (HMail hook_plain))
       JSONFormatter, None).
Proof. vm_compute. reflexivity. Qed.

(** ** The monad and the store *)

Ltac run :=
  unfold result, after, bind, ret, get_store, put_errToTime, time_Now, emit
    in *; simpl in *.

Lemma saveErrorTime_run key w :
  saveErrorTime key w =
  (tt, {| errStore := {| errToTime := <[key := clock w (ticks w)]>
                                        (errToTime (errStore w));
                         generalErr := generalErr (errStore w) |};
          clock := clock w; ticks := S (ticks w); wire := wire w |}).
Proof. reflexivity. Qed.

Lemma markErrAsSent_run e w :
  markErrAsSent e w =
  (tt, {| errStore :=
            {| errToTime :=
                 <[Message e := clock w (S (ticks w))]>
                   (<[generalErr (errStore w) := clock w (ticks w)]>
                      (errToTime (errStore w)));
               generalErr := generalErr (errStore w) |};
          clock := clock w; ticks := S (S (ticks w)); wire := wire w |}).
Proof. reflexivity. Qed.

Lemma checkErrorTime_run key d w :
  checkErrorTime key d w =
  match errToTime (errStore w) !! key with
  | Some t =>
      (negb (clock w (ticks w) <? t + d),
       {| errStore := errStore w; clock := clock w;
          ticks := S (ticks w); wire := wire w |})
  | None => (true, w)
  end.
Proof.
  unfold checkErrorTime. run.
  destruct (errToTime (errStore w) !! key) as [t|]; [|reflexivity].
  unfold Time_After, Time_Add.
  destruct (clock w (ticks w) <? t + d); reflexivity.
Qed.

Lemma checkErrorTime_store key d w :
  errStore (after (checkErrorTime key d) w) = errStore w ∧
  clock (after (checkErrorTime key d) w) = clock w ∧
  wire (after (checkErrorTime key d) w) = wire w ∧
  (ticks w ≤ ticks (after (checkErrorTime key d) w) ≤ S (ticks w))%nat.
Proof.
  unfold after. rewrite checkErrorTime_run.
  destruct (errToTime (errStore w) !! key); simpl; repeat split; lia.
Qed.

Lemma canSendMail_run e w :
  canSendMail e w =
  let g := checkErrorTime (generalErr (errStore w)) time_Minute w in
  if fst g then
    let m := checkErrorTime (Message e) (10 * time_Minute) (snd g) in
    (fst m, snd m)
  else (false, snd g).
Proof.
  unfold canSendMail. run.
  destruct (checkErrorTime (generalErr (errStore w)) time_Minute w)
    as [[] w1]; simpl; [|reflexivity].
  destruct (checkErrorTime (Message e) (10 * time_Minute) w1)
    as [[] w2]; reflexivity.
Qed.

Lemma canSendMail_store e w :
  errStore (after (canSendMail e) w) = errStore w ∧
  clock (after (canSendMail e) w) = clock w ∧
  wire (after (canSendMail e) w) = wire w ∧
  (ticks w ≤ ticks (after (canSendMail e) w) ≤ S (S (ticks w)))%nat.
Proof.
  unfold after. rewrite canSendMail_run. cbv zeta.
  pose proof (checkErrorTime_store (generalErr (errStore w)) time_Minute w)
    as (Hs & Hc & Hw & Ht).
  unfold after in *.
  destruct (checkErrorTime (generalErr (errStore w)) time_Minute w)
    as [[] w1]; simpl in *; [|repeat split; auto; lia].
  pose proof (checkErrorTime_store (Message e) (10 * time_Minute) w1)
    as (Hs' & Hc' & Hw' & Ht').
  unfold after in *.
  repeat split; try congruence; lia.
Qed.

(** C3. [checkErrorTime] answers true exactly when the key has no entry or
    its stamp plus the duration is not after the instant read from the
    clock; [canSendMail] answers true exactly when [checkErrorTime] does
    for the global key with one minute and then for the message text with
    ten minutes. *)
Theorem checkErrorTime_canSendMail_spec :
  (∀ key d w,
     result (checkErrorTime key d) w = true ↔
     permitted (errToTime (errStore w)) key d (clock w (ticks w))) ∧
  (∀ e w,
     result (canSendMail e) w = true ↔
     result (checkErrorTime (generalErr (errStore w)) (60 * 1000000000)) w
       = true ∧
     result (checkErrorTime (Message e) (600 * 1000000000))
            (after (checkErrorTime (generalErr (errStore w))
                                   (60 * 1000000000)) w) = true).
Proof.
  split.
  - intros key d w. unfold result, permitted. rewrite checkErrorTime_run.
    destruct (errToTime (errStore w) !! key) as [t|]; simpl.
    + rewrite negb_true_iff, Z.ltb_ge. split.
      * intros Hle. right. exists t. split; [reflexivity | lia].
      * intros [Hn | (t' & Ht' & Hle)]; [discriminate|].
        injection Ht' as <-. lia.
    + split; [intros _; left; reflexivity | reflexivity].
  - intros e w. unfold result, after. rewrite canSendMail_run. cbv zeta.
    change (60 * 1000000000) with time_Minute.
    change (600 * 1000000000) with (10 * time_Minute).
    destruct (checkErrorTime (generalErr (errStore w)) time_Minute w)
      as [[] w1]; simpl.
    + split; [intros Hm; split; [reflexivity | exact Hm] | intros [_ Hm]; exact Hm].
    + split; [discriminate | intros [Hf _]; discriminate].
Qed.

(** ** Severity routing *)

Section Routing.

Context `{GoLib}.

Lemma Hook_Levels_eq (h : Hook) :
  Hook_Levels h = [WarnLevel; PanicLevel; FatalLevel; ErrorLevel].
Proof. destruct h; reflexivity. Qed.

(** Registering a hook leaves the levels outside its list untouched. *)
Lemma LevelHooks_Add_other (hooks : gmap N (list Hook)) (h : Hook) (l : Level) :
  l ∉ Hook_Levels h → LevelHooks_Add hooks h !! l = hooks !! l.
Proof.
  unfold LevelHooks_Add. generalize (Hook_Levels h) as ls.
  intros ls. revert hooks.
  induction ls as [|x ls IH]; intros hooks Hnot; simpl; [reflexivity|].
  rewrite IH by (intros Hin; apply Hnot; right; exact Hin).
  apply lookup_insert_ne. intros ->. apply Hnot. left.
Qed.

(** At one of its levels the hook is appended to the level's list. *)
Lemma LevelHooks_Add_level (hooks : gmap N (list Hook)) (h : Hook) (l : Level) :
  l ∈ Hook_Levels h →
  LevelHooks_Add hooks h !! l = Some (default [] (hooks !! l) ++ [h])%list.
Proof.
  rewrite Hook_Levels_eq. unfold LevelHooks_Add. rewrite Hook_Levels_eq.
  intros Hin. simpl.
  unfold WarnLevel, PanicLevel, FatalLevel, ErrorLevel in *.
  rewrite !elem_of_cons, elem_of_nil in Hin.
  destruct Hin as [-> | [-> | [-> | [-> | []]]]];
    repeat first [ rewrite lookup_insert_eq
                 | rewrite lookup_insert_ne by discriminate ];
    reflexivity.
Qed.

Lemma register_all_other (sinks : list Hook) (hooks : gmap N (list Hook))
      (l : Level) :
  l ∉ [WarnLevel; PanicLevel; FatalLevel; ErrorLevel] →
  fold_left LevelHooks_Add sinks hooks !! l = hooks !! l.
Proof.
  intros Hnot. revert hooks.
  induction sinks as [|h sinks IH]; intros hooks; simpl; [reflexivity|].
  rewrite IH. apply LevelHooks_Add_other. rewrite Hook_Levels_eq. exact Hnot.
Qed.

(** C5. The levels of every hook are exactly warn, error, fatal and
    panic; so whatever hooks are registered, dispatching a record at
    info, debug or trace fires none of them: it returns nil and leaves
    the store, the clock and the outside untouched. *)
Theorem Levels_exact_and_low_levels_silent :
  (∀ (h : Hook) (l : Level),
     l ∈ Hook_Levels h ↔
     l = WarnLevel ∨ l = ErrorLevel ∨ l = FatalLevel ∨ l = PanicLevel) ∧
  (∀ (sinks : list Hook) (l : Level) (env : Env) (e : Entry) (w : World),
     l = InfoLevel ∨ l = DebugLevel ∨ l = TraceLevel →
     fold_left LevelHooks_Add sinks ∅ !! l = None ∧
     LevelHooks_Fire env (fold_left LevelHooks_Add sinks ∅) l e w
       = (None, w)).
Proof.
  split.
  - intros h l. rewrite Hook_Levels_eq.
    rewrite !elem_of_cons, elem_of_nil. tauto.
  - intros sinks l env e w Hl.
    assert (Hnone : fold_left LevelHooks_Add sinks ∅ !! l = None).
    { rewrite register_all_other; [apply lookup_empty|].
      rewrite !elem_of_cons, elem_of_nil.
      unfold WarnLevel, PanicLevel, FatalLevel, ErrorLevel.
      unfold InfoLevel, DebugLevel, TraceLevel in Hl.
      intros [-> | [-> | [-> | [-> | []]]]];
        destruct Hl as [Hl | [Hl | Hl]]; discriminate. }
    split; [exact Hnone|].
    unfold LevelHooks_Fire. rewrite Hnone. reflexivity.
Qed.

End Routing.

(** ** Construction of the mail hook *)

Section Construction.

Context `{GoLib}.

Lemma checkMailHookParams_run env host port sender recipient w :
  result (checkMailHookParams env host port sender recipient) w =
  match dial_timeout_err env with
  | Some err => Some err
  | None =>
      match mail_ParseAddress sender with
      | Some err => Some err
      | None => mail_ParseAddress recipient
      end
  end ∧
  wire (after (checkMailHookParams env host port sender recipient) w) =
  (wire w ++
   EvDialTimeout (host +:+ ":" +:+ strconv_Itoa port) (3 * time_Second) ::
   match dial_timeout_err env with
   | Some _ => []
   | None => [EvConnClose]
   end)%list.
Proof.
  unfold checkMailHookParams. run.
  destruct (dial_timeout_err env); simpl.
  - split; reflexivity.
  - rewrite <- app_assoc. simpl. split; [|reflexivity].
    destruct (mail_ParseAddress sender); [reflexivity|].
    destruct (mail_ParseAddress recipient); reflexivity.
Qed.

(** C7. [NewMailHook] returns an error and no hook exactly when the dial
    to [host:port] (three seconds of timeout) fails, or the sender does
    not parse as a mail address, or the recipient does not; when the
    three checks pass it returns the hook that carries the given
    application name, host, port, sender and recipient. *)
Theorem NewMailHook_error_iff_check_fails :
  ∀ env appname host port sender recipient w,
    let res := result (NewMailHook env appname host port sender recipient) w in
    ((∃ err, res = inr err) ↔
     dial_timeout_err env ≠ None ∨ mail_ParseAddress sender ≠ None ∨
     mail_ParseAddress recipient ≠ None) ∧
    (res = inl (MailHook.Mk appname host port sender recipient) ↔
     dial_timeout_err env = None ∧ mail_ParseAddress sender = None ∧
     mail_ParseAddress recipient = None) ∧
    (∃ rest,
       wire (after (NewMailHook env appname host port sender recipient) w) =
       (wire w ++ EvDialTimeout (host +:+ ":" +:+ strconv_Itoa port)
                                (3 * 1000000000) :: rest)%list).
Proof.
  intros env appname host port sender recipient w res.
  pose proof (checkMailHookParams_run env host port sender recipient w)
    as [Hres Hwire].
  subst res. unfold NewMailHook, result, after, bind in *.
  destruct (checkMailHookParams env host port sender recipient w)
    as [err w1]; simpl in *.
  repeat split.
  - intros [e He]. destruct err as [e'|]; [|discriminate].
    destruct (dial_timeout_err env); [left; discriminate|].
    destruct (mail_ParseAddress sender); [right; left; discriminate|].
    right; right. rewrite <- Hres. discriminate.
  - intros Hfail. destruct err as [e'|]; [eexists; reflexivity|].
    destruct (dial_timeout_err env); [discriminate|].
    destruct (mail_ParseAddress sender); [discriminate|].
    destruct Hfail as [Hf | [Hf | Hf]]; congruence.
  - destruct err; [discriminate|].
    destruct (dial_timeout_err env); [discriminate|]. reflexivity.
  - destruct err; [discriminate|].
    destruct (dial_timeout_err env); [discriminate|].
    destruct (mail_ParseAddress sender); [discriminate|]. reflexivity.
  - destruct err; [discriminate|].
    destruct (dial_timeout_err env); [discriminate|].
    destruct (mail_ParseAddress sender); [discriminate|]. congruence.
  - intros (Hd & Hs & Hr). rewrite Hd, Hs, Hr in Hres. subst err.
    reflexivity.
  - destruct err; simpl; rewrite Hwire; eexists; reflexivity.
Qed.

End Construction.

(** ** The console mirror *)

Section Console.

Context `{GoLib}.

(** [StderrHook.Fire] returns the formatter's error, whatever the write
    to the error stream does. *)
Lemma StderrHook_Fire_result env hook e w :
  result (StderrHook.Fire env hook e) w =
  snd (TextFormatter_Format (StderrHook.textFormater hook) e).
Proof.
  unfold StderrHook.Fire, StderrHook.Fprintf_stderr.
  destruct (TextFormatter_Format (StderrHook.textFormater hook) e)
    as [line [err|]]; reflexivity.
Qed.

(** C9. [StderrHook.Fire] returns nil: the text formatter of logrus has
    no failing path, which is the hypothesis on [TextFormatter_Format];
    the formatted line and the stack trace are handed to the error
    stream, and an error of that write is dropped, not returned. *)
Theorem StderrHook_Fire_swallows_write_error :
  ∀ env hook e w,
    snd (TextFormatter_Format (StderrHook.textFormater hook) e) = None →
    result (StderrHook.Fire env hook e) w = None ∧
    wire (after (StderrHook.Fire env hook e) w) =
    (wire w ++
     [EvStderr (fst (TextFormatter_Format (StderrHook.textFormater hook) e)
                +:+ debug_Stack)])%list ∧
    errStore (after (StderrHook.Fire env hook e) w) = errStore w.
Proof.
  intros env hook e w Hfmt. split.
  - rewrite StderrHook_Fire_result. exact Hfmt.
  - unfold StderrHook.Fire, StderrHook.Fprintf_stderr.
    destruct (TextFormatter_Format (StderrHook.textFormater hook) e)
      as [line err]. simpl in Hfmt. subst err. split; reflexivity.
Qed.

End Console.

Lemma StderrHook_Fire_swallows_write_error_witness :
  result (StderrHook.Fire (H := ref_lib) env_stderr_closed
            (StderrHook.Mk (MkTextFormatter false)) entry_disk_full)
         (World_init (fun _ => 0)) = None.
Proof.
  apply (StderrHook_Fire_swallows_write_error (H := ref_lib) env_stderr_closed
           (StderrHook.Mk (MkTextFormatter false)) entry_disk_full
           (World_init (fun _ => 0))).
  reflexivity.
Defined.

(** ** The mail hooks *)

Lemma add_wire_add_wire w a b :
  add_wire (add_wire w a) b = add_wire w (a ++ b)%list.
Proof. unfold add_wire. simpl. rewrite <- app_assoc. reflexivity. Qed.

(** The suppression check does not look at the trace. *)
Lemma checkErrorTime_add_wire key d w evs :
  checkErrorTime key d (add_wire w evs) =
  (result (checkErrorTime key d) w,
   add_wire (after (checkErrorTime key d) w) evs).
Proof.
  unfold result, after. rewrite !checkErrorTime_run. simpl.
  destruct (errToTime (errStore w) !! key); reflexivity.
Qed.

Lemma canSendMail_add_wire e w evs :
  canSendMail e (add_wire w evs) =
  (result (canSendMail e) w, add_wire (after (canSendMail e) w) evs).
Proof.
  unfold result, after. rewrite !canSendMail_run. cbv zeta.
  change (errStore (add_wire w evs)) with (errStore w).
  rewrite checkErrorTime_add_wire. unfold result, after. simpl.
  destruct (checkErrorTime (generalErr (errStore w)) time_Minute w)
    as [[] w1]; simpl; [|reflexivity].
  rewrite checkErrorTime_add_wire. reflexivity.
Qed.

Lemma markErrAsSent_add_wire e w evs :
  markErrAsSent e (add_wire w evs) =
  (tt, add_wire (after (markErrAsSent e) w) evs).
Proof. unfold after. rewrite !markErrAsSent_run. reflexivity. Qed.

Section MailHooks.

Context `{GoLib}.

(** A refused dial ends [MailHook.Fire] at once. *)
Lemma MailHook_Fire_dial_refused env hook e w err :
  dial_err env = Some err →
  MailHook.Fire env hook e w =
  (Some err, add_wire w [EvDial (MailHook_addr hook)]).
Proof.
  intros Hd. unfold MailHook.Fire, bind, emit. rewrite Hd. reflexivity.
Qed.

(** A suppressed record: the connection is opened and closed, nothing
    else is sent and the store is as the check left it. *)
Lemma MailHook_Fire_suppressed env hook e w :
  dial_err env = None →
  result (canSendMail e) w = false →
  MailHook.Fire env hook e w =
  (None, add_wire (after (canSendMail e) w)
                  [EvDial (MailHook_addr hook); EvClientClose]).
Proof.
  intros Hd Hc. unfold MailHook.Fire, bind, emit. rewrite Hd.
  rewrite canSendMail_add_wire, Hc. simpl. unfold ret.
  rewrite add_wire_add_wire. reflexivity.
Qed.

(** A permitted record whose envelope is refused: the error comes back
    and the store is as the check left it. *)
Lemma MailHook_Fire_envelope_refused env hook e w :
  dial_err env = None →
  result (canSendMail e) w = true →
  (mail_err env ≠ None ∨ rcpt_err env ≠ None ∨ data_err env ≠ None) →
  (∃ err, result (MailHook.Fire env hook e) w = Some err) ∧
  errStore (after (MailHook.Fire env hook e) w) = errStore w.
Proof.
  intros Hd Hc Hfail.
  pose proof (canSendMail_store e w) as (Hs & _).
  unfold result, after in *. unfold MailHook.Fire, bind, emit.
  rewrite Hd, canSendMail_add_wire. unfold result, after.
  rewrite Hc. simpl. unfold ret.
  destruct (mail_err env) as [e1|]; simpl; [split; eauto|].
  destruct (rcpt_err env) as [e2|]; simpl; [split; eauto|].
  destruct (data_err env) as [e3|]; simpl; [split; eauto|].
  destruct Hfail as [F | [F | F]]; congruence.
Qed.

(** A permitted record whose envelope is accepted: both keys are
    stamped before the payload is written, and the result is the
    write's. *)
Lemma MailHook_Fire_marked env hook e w :
  dial_err env = None →
  result (canSendMail e) w = true →
  mail_err env = None → rcpt_err env = None → data_err env = None →
  result (MailHook.Fire env hook e) w = write_err env ∧
  errStore (after (MailHook.Fire env hook e) w) =
  errStore (after (markErrAsSent e) (after (canSendMail e) w)).
Proof.
  intros Hd Hc Hm Hr Hda.
  unfold result, after in *. unfold MailHook.Fire, bind, emit.
  rewrite Hd, canSendMail_add_wire. unfold result, after.
  rewrite Hc, Hm, Hr, Hda. simpl. unfold ret.
  destruct (write_err env); simpl; split; reflexivity.
Qed.

(** [MailAuthHook.Fire] on a suppressed record does nothing. *)
Lemma MailAuthHook_Fire_suppressed env hook e w :
  result (canSendMail e) w = false →
  MailAuthHook.Fire env hook e w = (None, after (canSendMail e) w).
Proof.
  intros Hc. unfold result, after in *. unfold MailAuthHook.Fire, bind.
  destruct (canSendMail e w) as [ok w1]. simpl in *. subst ok.
  reflexivity.
Qed.

(** [MailAuthHook.Fire] on a permitted record stamps both keys before
    the send, whose result it returns. *)
Lemma MailAuthHook_Fire_marked env hook e w :
  result (canSendMail e) w = true →
  result (MailAuthHook.Fire env hook e) w = sendmail_err env ∧
  errStore (after (MailAuthHook.Fire env hook e) w) =
  errStore (after (markErrAsSent e) (after (canSendMail e) w)).
Proof.
  intros Hc. unfold result, after in *. unfold MailAuthHook.Fire, bind, emit.
  destruct (canSendMail e w) as [ok w1]. simpl in *. subst ok. simpl.
  destruct (markErrAsSent e w1) as [[] w2]. simpl.
  destruct (sendmail_err env); split; reflexivity.
Qed.

End MailHooks.

(** ** The store is shared by the hooks *)


Lemma canSendMail_message_fresh e w tm :
  errToTime (errStore w) !! Message e = Some tm →
  within w tm (10 * time_Minute) →
  result (canSendMail e) w = false.
Proof.
  intros Hm Hin. unfold result. rewrite canSendMail_run. cbv zeta.
  pose proof (checkErrorTime_store (generalErr (errStore w)) time_Minute w)
    as (Hs & Hc & _ & Ht).
  unfold after in *.
  destruct (checkErrorTime (generalErr (errStore w)) time_Minute w)
    as [[] w1]; simpl in *; [|reflexivity].
  rewrite checkErrorTime_run, Hs, Hm. simpl.
  rewrite Hc. specialize (Hin (ticks w1) Ht).
  apply Z.ltb_lt in Hin. rewrite Hin. reflexivity.
Qed.

Lemma markErrAsSent_store e w :
  errStore (after (markErrAsSent e) w) =
  {| errToTime :=
       <[Message e := clock w (S (ticks w))]>
         (<[generalErr (errStore w) := clock w (ticks w)]>
            (errToTime (errStore w)));
     generalErr := generalErr (errStore w) |}.
Proof. unfold after. rewrite markErrAsSent_run. reflexivity. Qed.

Section Shared.

Context `{GoLib}.

(** A marking call leaves the store as [markErrAsSent] makes it. *)
Lemma marks_store env h e w :
  marks env h e w →
  errStore (after (Hook_Fire env h e) w) =
  errStore (after (markErrAsSent e) (after (canSendMail e) w)).
Proof.
  destruct h as [h | h | h]; simpl.
  - intros (Hd & Hc & Hm & Hr & Hda).
    apply (MailHook_Fire_marked env h e w Hd Hc Hm Hr Hda).
  - intros Hc. apply (MailAuthHook_Fire_marked env h e w Hc).
  - intros [].
Qed.

(** Any other call leaves the store as it found it: [marks] is exactly
    the calls that stamp. *)
Lemma not_marks_store env h e w :
  ¬ marks env h e w →
  errStore (after (Hook_Fire env h e) w) = errStore w.
Proof.
  pose proof (canSendMail_store e w) as (Hs & _).
  destruct h as [h | h | h]; simpl; intros Hnot.
  - destruct (dial_err env) as [err|] eqn:Hd.
    { unfold after. rewrite (MailHook_Fire_dial_refused env h e w err Hd).
      reflexivity. }
    destruct (result (canSendMail e) w) eqn:Hc.
    + apply (MailHook_Fire_envelope_refused env h e w Hd Hc).
      destruct (mail_err env); [left; discriminate|].
      destruct (rcpt_err env); [right; left; discriminate|].
      destruct (data_err env); [right; right; discriminate|].
      exfalso. apply Hnot. repeat split.
    + unfold after at 1. rewrite (MailHook_Fire_suppressed env h e w Hd Hc).
      simpl. exact Hs.
  - destruct (result (canSendMail e) w) eqn:Hc; [contradiction|].
    unfold after at 1. rewrite (MailAuthHook_Fire_suppressed env h e w Hc).
    exact Hs.
  - unfold after, StderrHook.Fire, StderrHook.Fprintf_stderr, bind, emit, ret.
    destruct (TextFormatter_Format (StderrHook.textFormater h) e)
      as [line [err|]]; reflexivity.
Qed.




End Shared.

(** ** Concrete runs *)


(** The sibling path: [MailAuthHook.Fire] stamps before it sends, so a
    failed send leaves the record suppressed. *)
Example MailAuthHook_Fire_failed_send_stamps :
  result (MailAuthHook.Fire (H := ref_lib) env_sendmail_refused hook_auth
                            entry_disk_full) world_fresh
    = Some "550 5.1.1 recipient rejected" ∧
  result (canSendMail entry_disk_full)
         (after (MailAuthHook.Fire (H := ref_lib) env_sendmail_refused
                                   hook_auth entry_disk_full) world_fresh)
    = false.
Proof. split; vm_compute; reflexivity. Qed.

(** On [MailHook] only a failure of the payload's write comes after the
    stamps. *)
Example MailHook_Fire_failed_write_stamps :
  result (MailHook.Fire (H := ref_lib) env_write_broken hook_plain
                        entry_disk_full) world_fresh
    = Some "write tcp: broken pipe" ∧
  result (canSendMail entry_disk_full)
         (after (MailHook.Fire (H := ref_lib) env_write_broken hook_plain
                               entry_disk_full) world_fresh)
    = false.
Proof. split; vm_compute; reflexivity. Qed.

(** C1. On [MailHook] a refused recipient ends the call before the keys
    are stamped: [Fire] returns the server's error, the store is still
    empty, and the same record is permitted again at once. *)
Theorem MailHook_Fire_rcpt_refused_not_stamped :
  result (MailHook.Fire (H := ref_lib) env_rcpt_refused hook_plain
                        entry_disk_full) world_fresh
    = Some "550 5.1.1 recipient rejected" ∧
  errToTime (errStore (after (MailHook.Fire (H := ref_lib) env_rcpt_refused
                                hook_plain entry_disk_full) world_fresh)) = ∅ ∧
  result (canSendMail entry_disk_full)
         (after (MailHook.Fire (H := ref_lib) env_rcpt_refused hook_plain
                               entry_disk_full) world_fresh) = true.
Proof. repeat split; vm_compute; reflexivity. Qed.

(** C2. On a suppressed record [MailHook.Fire] still dials the server:
    the connection is opened before the store is asked, and closed. *)
Theorem MailHook_Fire_suppressed_still_dials :
  result (canSendMail entry_disk_full) world_stamped = false ∧
  result (MailHook.Fire (H := ref_lib) env_ok hook_plain entry_disk_full)
         world_stamped = None ∧
  wire (after (MailHook.Fire (H := ref_lib) env_ok hook_plain entry_disk_full)
              world_stamped) = [EvDial "localhost:25"; EvClientClose].
Proof. repeat split; vm_compute; reflexivity. Qed.

(** C8. On a suppressed record [MailHook.Fire] returns the error of a
    refused dial, not nil; the store is left as it was. *)
Theorem MailHook_Fire_suppressed_returns_dial_error :
  result (canSendMail entry_disk_full) world_stamped = false ∧
  result (MailHook.Fire (H := ref_lib) env_dial_refused hook_plain
                        entry_disk_full) world_stamped
    = Some "dial tcp 127.0.0.1:25: connect: connection refused" ∧
  errStore (after (MailHook.Fire (H := ref_lib) env_dial_refused hook_plain
                                 entry_disk_full) world_stamped)
    = errStore world_stamped.
Proof. repeat split; vm_compute; reflexivity. Qed.

(** ** Setup *)

Section Setup.

Context `{GoLib}.

(** C4, as the code has it.  When [UsefulSetupLogrus] returns an error,
    the formatter is the one passed in and no mail hook was registered,
    but the steps before the failing one stay applied: the output is
    already standard output; and when the failure is the mail hook's
    construction (endpoint unreachable, address not valid), the parsed
    level is set and the console hook is registered.  For a malformed
    endpoint or a bad level name, level and hooks are as passed in. *)
Theorem UsefulSetupLogrus_error_keeps_earlier_steps :
  ∀ env log mailHostPort format level appName sender recipient w log' err,
    result (UsefulSetupLogrus env log mailHostPort format level appName
                              sender recipient) w = (log', Some err) →
    LogFormatter log' = LogFormatter log ∧
    Out log' = os_Stdout ∧
    ((log' = set_Out log os_Stdout ∧
      (net_SplitHostPort mailHostPort = inr err ∨
       (∃ host strPort, net_SplitHostPort mailHostPort = inl (host, strPort) ∧
                        strconv_Atoi strPort = inr err) ∨
       logrus_ParseLevel level = inr err)) ∨
     (∃ host strPort port lvl,
        net_SplitHostPort mailHostPort = inl (host, strPort) ∧
        strconv_Atoi strPort = inl port ∧
        logrus_ParseLevel level = inl lvl ∧
        result (NewMailHook env appName host port sender recipient) w
          = inr err ∧
        log' = Hooks_Add (SetLevel (set_Out log os_Stdout) lvl)
                         (HStderr (StderrHook.Mk (MkTextFormatter false))))).
Proof.
  intros env log mailHostPort format level appName sender recipient w
         log' err.
  unfold UsefulSetupLogrus, result.
  destruct (net_SplitHostPort mailHostPort) as [[host strPort]|e1] eqn:Hsplit.
  2:{ unfold ret. simpl. intros [= <- <-]. repeat split. left. split; auto. }
  destruct (strconv_Atoi strPort) as [port|e2] eqn:Hatoi.
  2:{ unfold ret. simpl. intros [= <- <-]. repeat split. left.
      split; [reflexivity|]. right. left. eauto. }
  destruct (logrus_ParseLevel level) as [lvl|e3] eqn:Hlvl.
  2:{ unfold ret. simpl. intros [= <- <-]. repeat split. left.
      split; auto. }
  unfold NewStderrHook, bind.
  destruct (NewMailHook env appName host port sender recipient w)
    as [[mh|e4] w1] eqn:Hnew.
  - destruct (String.eqb format "json"); unfold ret; simpl; discriminate.
  - unfold ret. simpl. intros [= <- <-]. repeat split. right.
    exists host, strPort, port, lvl. rewrite Hnew.
    repeat split; assumption.
Qed.

End Setup.

Lemma UsefulSetupLogrus_error_keeps_earlier_steps_witness :
  ∃ log',
    result (UsefulSetupLogrus (H := ref_lib) env_dial_refused logrus_New
              "localhost:25" "json" "debug" "svc"
              "alerts@example.org" "ops@example.org") world_fresh
      = (log', Some "dial tcp 127.0.0.1:25: connect: connection refused") ∧
    LogFormatter log' = LogFormatter logrus_New ∧ Out log' = os_Stdout.
Proof.
  eexists. split; [vm_compute; reflexivity|].
  pose proof (UsefulSetupLogrus_error_keeps_earlier_steps (H := ref_lib)
                env_dial_refused logrus_New
                "localhost:25" "json" "debug" "svc"
                "alerts@example.org" "ops@example.org" world_fresh
                _ _ eq_refl) as (Hf & Ho & _).
  split; [exact Hf | exact Ho].
Defined.

(** C4 as stated fails: the endpoint is unreachable, setup returns the
    dial's error, and the logger of [logrus.New()] has by then its output
    on standard output, its level at debug and the console hook
    registered. *)
Lemma UsefulSetupLogrus_partial_setup_counterexample :
  ¬ setup_leaves_logger_untouched (H := ref_lib) env_dial_refused logrus_New
      "localhost:25" "json" "debug" "svc"
      "alerts@example.org" "ops@example.org" world_fresh.
Proof.
  intros Hclaim.
  specialize (Hclaim _ _ eq_refl).
  apply (f_equal LogLevel) in Hclaim. vm_compute in Hclaim. discriminate.
Qed.

(** ** The composed message *)

Lemma append_assoc (a b c : string) : (a +:+ b) +:+ c = a +:+ b +:+ c.
Proof.
  induction a as [|x a IH]; [reflexivity|].
  change (String x ((a +:+ b) +:+ c) = String x (a +:+ b +:+ c)).
  rewrite IH. reflexivity.
Qed.

Lemma append_nil_r (a : string) : a +:+ "" = a.
Proof.
  induction a as [|x a IH]; [reflexivity|].
  change (String x (a +:+ "") = String x a). rewrite IH. reflexivity.
Qed.

Lemma contains_here (needle post : string) : contains (needle +:+ post) needle.
Proof. exists "", post. reflexivity. Qed.

Lemma contains_app_r (a b needle : string) :
  contains b needle → contains (a +:+ b) needle.
Proof.
  intros (pre & post & ->). exists (a +:+ pre), post.
  rewrite append_assoc. reflexivity.
Qed.

Lemma contains_app_l (a b needle : string) :
  contains a needle → contains (a +:+ b) needle.
Proof.
  intros (pre & post & ->). exists pre, (post +:+ b).
  rewrite !append_assoc. reflexivity.
Qed.

Lemma prefixb_sound (p s : string) :
  prefixb p s = true → ∃ post, s = p +:+ post.
Proof.
  revert s. induction p as [|a p IH]; intros s Hp.
  - exists s. reflexivity.
  - destruct s as [|b s]; [discriminate|]. simpl in Hp.
    apply andb_true_iff in Hp as [Hab Hps].
    apply Ascii.eqb_eq in Hab as ->.
    destruct (IH s Hps) as [post ->]. exists post. reflexivity.
Qed.

Lemma containsb_sound (hay needle : string) :
  containsb hay needle = true → contains hay needle.
Proof.
  induction hay as [|c hay IH]; simpl; intros Hc.
  - rewrite orb_false_r in Hc. apply prefixb_sound in Hc as [post ->].
    apply contains_here.
  - apply orb_true_iff in Hc as [Hp | Hrest].
    + apply prefixb_sound in Hp as [post ->]. apply contains_here.
    + apply (contains_app_r (String c "") hay needle). apply IH. exact Hrest.
Qed.

(** Every member handed to [json_members] is written on a line of its
    own: indentation, quoted key, colon, space, value. *)
Lemma json_members_contains indent l out k v :
  json_members indent l = Some out →
  (k, v) ∈ l →
  ∃ jv, json_value v = Some jv ∧
        contains out (LF +:+ indent +:+ json_string k +:+ ": " +:+ jv).
Proof.
  revert out. induction l as [|[k' v'] rest IH]; intros out Hout Hin.
  - apply elem_of_nil in Hin. contradiction.
  - simpl in Hout.
    destruct (json_value v') as [jv'|] eqn:Hv'; [|discriminate].
    destruct (json_members indent rest) as [jr|] eqn:Hr; [|discriminate].
    injection Hout as <-.
    apply elem_of_cons in Hin as [[= -> ->] | Hin].
    + exists jv'. split; [exact Hv'|].
      exists "", (match rest with [] => "" | _ => "," end +:+ jr).
      rewrite !append_assoc. reflexivity.
    + destruct (IH jr eq_refl Hin) as (jv & Hjv & Hc).
      exists jv. split; [exact Hjv|].
      do 6 apply contains_app_r. exact Hc.
Qed.

(** The rendering of a field map shows every field. *)
Lemma json_MarshalIndent_contains m indent data k v :
  json_MarshalIndent m indent = Some data →
  m !! k = Some v →
  ∃ jv, json_value v = Some jv ∧
        contains data (LF +:+ indent +:+ json_string k +:+ ": " +:+ jv).
Proof.
  unfold json_MarshalIndent. intros Hdata Hkv.
  assert (Hin : (k, v) ∈ sorted_fields m).
  { unfold sorted_fields. rewrite merge_sort_Permutation.
    apply elem_of_map_to_list. exact Hkv. }
  destruct (sorted_fields m) as [|p rest] eqn:Hs.
  - apply elem_of_nil in Hin. contradiction.
  - destruct (json_members indent (p :: rest)) as [body|] eqn:Hb;
      [|discriminate].
    injection Hdata as <-.
    destruct (json_members_contains indent (p :: rest) body k v Hb Hin)
      as (jv & Hjv & Hc).
    exists jv. split; [exact Hjv|].
    apply (contains_app_r "{"). apply contains_app_l. exact Hc.
Qed.

Section Composer.

Context `{GoLib}.

(** C6, as the code has it.  [createMessage] gives the subject
    [appname - level name], then the body: the time in the layout of
    [Time_Format_layout] after [TIME: ], the text after [MESSAGE: ],
    the data after [DATA: ] and the stack trace after [STACKTRACE: ], at
    every level.  When the field map can be encoded the data is its
    indented JSON, with a line for every field; when the encoder
    refuses a field its error is dropped and the data is empty.  For
    the fields user = a and count = 3, the name svc and level error,
    the subject is [svc - error] and the body shows [TIME:],
    [MESSAGE:] and the two fields. *)
Theorem createMessage_layout :
  (∀ e appname,
     createMessage e appname =
       "Subject: " +:+ (appname +:+ " - " +:+ Level_String (EntryLevel e)) +:+
       CRLF +:+ CRLF +:+
       ("TIME: " +:+ Time_Format_layout (Time e) +:+ LF +:+
        "MESSAGE: " +:+ Message e +:+ LF +:+ LF +:+
        "DATA: " +:+ default "" (json_MarshalIndent (Data e) TAB) +:+
        LF +:+ LF +:+
        "STACKTRACE: " +:+ LF +:+ debug_Stack) ∧
     ((∃ k, Data e !! k = Some VChan) →
      json_MarshalIndent (Data e) TAB = None) ∧
     (∀ data, json_MarshalIndent (Data e) TAB = Some data →
        ∀ k v, Data e !! k = Some v →
               ∃ jv, json_value v = Some jv ∧
                     contains data
                       (LF +:+ TAB +:+ json_string k +:+ ": " +:+ jv))) ∧
  (∃ body,
     createMessage entry_round_trip "svc" =
       "Subject: svc - error" +:+ CRLF +:+ CRLF +:+ body ∧
     contains body "TIME: 2024-03-09 07:05:00+0100" ∧
     contains body "MESSAGE: boom" ∧
     contains body (quoted "user" +:+ ": " +:+ quoted "a") ∧
     contains body (quoted "count" +:+ ": 3") ∧
     contains body debug_Stack).
Proof.
  split; [intros e appname; split; [|split]|].
  - unfold createMessage. cbv zeta. rewrite !append_assoc. reflexivity.
  - intros [k Hk].
    destruct (json_MarshalIndent (Data e) TAB) as [data|] eqn:Hdata;
      [|reflexivity].
    destruct (json_MarshalIndent_contains (Data e) TAB data k VChan Hdata Hk)
      as (jv & Hjv & _).
    discriminate.
  - intros data Hdata k v Hkv.
    apply (json_MarshalIndent_contains (Data e) TAB data k v Hdata Hkv).
  - exists (("TIME: 2024-03-09 07:05:00+0100" +:+ LF +:+
             "MESSAGE: boom" +:+ LF +:+ LF +:+
             "DATA: {" +:+ LF +:+ TAB +:+ quoted "count" +:+ ": 3," +:+
             LF +:+ TAB +:+ quoted "user" +:+ ": " +:+ quoted "a" +:+
             LF +:+ "}" +:+ LF +:+ LF +:+
             "STACKTRACE: " +:+ LF) +:+ debug_Stack).
    split; [vm_compute; reflexivity|].
    repeat split;
      try (apply contains_app_l; apply containsb_sound;
           vm_compute; reflexivity).
    apply contains_app_r. exists "", "". rewrite append_nil_r. reflexivity.
Qed.

End Composer.

(** C6 as stated fails on a record with a channel among its fields: the
    encoder returns an error, no rendering of the fields exists, and the
    message has nothing after [DATA: ]. *)
Lemma createMessage_unencodable_counterexample :
  ¬ message_renders_fields (H := ref_lib) entry_with_channel "svc" ∧
  createMessage (H := ref_lib) entry_with_channel "svc" =
    "Subject: svc - error" +:+ CRLF +:+ CRLF +:+
    "TIME: 2024-03-09 07:05:00+0100" +:+ LF +:+
    "MESSAGE: boom" +:+ LF +:+ LF +:+
    "DATA: " +:+ LF +:+ LF +:+
    "STACKTRACE: " +:+ LF +:+ "goroutine 1 [running]:" +:+ LF.
Proof.
  split.
  - intros (data & Hdata & _). vm_compute in Hdata. discriminate.
  - vm_compute. reflexivity.
Qed.

(** * Further properties *)

(** ** The store over time *)

Lemma marks_or_not env h e w : marks env h e w ∨ ¬ marks env h e w.
Proof.
  destruct h as [h | h | h]; simpl.
  - destruct (dial_err env); [right; intros (F & _); discriminate|].
    destruct (result (canSendMail e) w);
      [|right; intros (_ & F & _); discriminate].
    destruct (mail_err env); [right; intros (_ & _ & F & _); discriminate|].
    destruct (rcpt_err env);
      [right; intros (_ & _ & _ & F & _); discriminate|].
    destruct (data_err env);
      [right; intros (_ & _ & _ & _ & F); discriminate|].
    left. repeat split.
  - destruct (result (canSendMail e) w); [left; reflexivity|].
    right. discriminate.
  - right. tauto.
Qed.

Section StoreOverTime.

Context `{GoLib}.

(** X1. No call of [Fire], of any hook, removes a stamp: a key stamped
    before the call is stamped after it, the stamps of keys other than
    the global key and the record's text are the same, the only keys a
    call can add are these two, and the global key itself is never
    renamed. *)
Theorem Fire_never_forgets_a_stamp :
  ∀ env (h : Hook) e w k,
    let m := errToTime (errStore w) in
    let m' := errToTime (errStore (after (Hook_Fire env h e) w)) in
    (is_Some (m !! k) → is_Some (m' !! k)) ∧
    (k ≠ generalErr (errStore w) → k ≠ Message e → m' !! k = m !! k) ∧
    (is_Some (m' !! k) →
     is_Some (m !! k) ∨ k = generalErr (errStore w) ∨ k = Message e) ∧
    generalErr (errStore (after (Hook_Fire env h e) w))
      = generalErr (errStore w).
Proof.
  intros env h e w k m m'. subst m m'.
  pose proof (canSendMail_store e w) as (Hs & _).
  destruct (marks_or_not env h e w) as [Hm | Hm].
  - rewrite (marks_store env h e w Hm), markErrAsSent_store, Hs. simpl.
    repeat split.
    + intros Hk.
      destruct (decide (k = Message e)) as [-> | Hne];
        [rewrite lookup_insert_eq; eauto|].
      rewrite lookup_insert_ne by congruence.
      destruct (decide (k = generalErr (errStore w))) as [-> | Hng];
        [rewrite lookup_insert_eq; eauto|].
      rewrite lookup_insert_ne by congruence. exact Hk.
    + intros Hng Hne. rewrite !lookup_insert_ne by congruence. reflexivity.
    + intros Hk.
      destruct (decide (k = Message e)) as [-> | Hne]; [right; right; auto|].
      destruct (decide (k = generalErr (errStore w))) as [-> | Hng];
        [right; left; auto|].
      rewrite !lookup_insert_ne in Hk by congruence. left. exact Hk.
  - rewrite (not_marks_store env h e w Hm). repeat split; auto.
Qed.

(** X2. [Fire] stamps the store exactly when it reaches the point after
    the accepted [DATA] ([MailHook]) or after the permitting check
    ([MailAuthHook]): then the global key holds the first clock reading
    after the check and the record's text the second; in every other
    case, errors included, the store is as it was. *)
Theorem Fire_stamps_exactly_when_marking :
  ∀ env (h : Hook) e w,
    let n := ticks (after (canSendMail e) w) in
    (marks env h e w →
     errToTime (errStore (after (Hook_Fire env h e) w)) =
     <[Message e := clock w (S n)]>
       (<[generalErr (errStore w) := clock w n]> (errToTime (errStore w)))) ∧
    (¬ marks env h e w →
     errStore (after (Hook_Fire env h e) w) = errStore w).
Proof.
  intros env h e w n. subst n.
  pose proof (canSendMail_store e w) as (Hs & Hc & _).
  split.
  - intros Hm. rewrite (marks_store env h e w Hm), markErrAsSent_store.
    simpl. rewrite Hs, Hc. reflexivity.
  - apply not_marks_store.
Qed.

End StoreOverTime.

(** X3. Once a record has been stamped, the same record is permitted
    again exactly when the clock read by the global check is at least one
    minute past the global stamp and the clock read by the text's check
    is at least ten minutes past the text's stamp: the bounds are
    inclusive. *)
Theorem canSendMail_after_stamp_iff :
  ∀ e w clk n evs,
    let w1 := after (markErrAsSent e) w in
    ∃ tg tm,
      errToTime (errStore w1) !! generalErr (errStore w1) = Some tg ∧
      errToTime (errStore w1) !! Message e = Some tm ∧
      tm = clock w (S (ticks w)) ∧
      (result (canSendMail e) (later (errStore w1) clk n evs) = true ↔
       tg + 60 * 1000000000 <= clk n ∧
       tm + 600 * 1000000000 <= clk (S n)).
Proof.
  intros e w clk n evs w1. subst w1.
  rewrite markErrAsSent_store. simpl.
  assert (Hg : ∃ tg, (<[Message e := clock w (S (ticks w))]>
                        (<[generalErr (errStore w) := clock w (ticks w)]>
                           (errToTime (errStore w))))
                     !! generalErr (errStore w) = Some tg).
  { destruct (decide (Message e = generalErr (errStore w))) as [-> | Hne].
    - eexists. apply lookup_insert_eq.
    - eexists. rewrite lookup_insert_ne by exact Hne. apply lookup_insert_eq. }
  destruct Hg as [tg Hg].
  exists tg, (clock w (S (ticks w))).
  split; [exact Hg|]. split; [apply lookup_insert_eq|]. split; [reflexivity|].
  unfold result. rewrite canSendMail_run. cbv zeta.
  rewrite checkErrorTime_run. simpl. rewrite Hg. simpl.
  change (60 * 1000000000) with time_Minute.
  change (600 * 1000000000) with (10 * time_Minute).
  destruct (clk n <? tg + time_Minute) eqn:Hcmp; simpl.
  - apply Z.ltb_lt in Hcmp. split; [discriminate | lia].
  - apply Z.ltb_ge in Hcmp.
    rewrite checkErrorTime_run. simpl. rewrite lookup_insert_eq. simpl.
    rewrite negb_true_iff, Z.ltb_ge. split; [intros Hm; split; lia | tauto].
Qed.

(** X4. The record's text and the global key share one map.  Stamping
    a record writes a clock reading of that call under the global key
    (the first reading, or the second when the record's own text is the
    global key); a record whose text is the global key is then kept back
    as long as the clock is less than ten minutes past that reading,
    whatever the text of the record that was stamped. *)
Theorem text_equal_to_global_key_waits_ten_minutes :
  ∀ e e' w clk n evs,
    Message e' = generalErr (errStore w) →
    let w1 := after (markErrAsSent e) w in
    let tg := if decide (Message e = generalErr (errStore w))
              then clock w (S (ticks w)) else clock w (ticks w) in
    generalErr (errStore w1) = generalErr (errStore w) ∧
    errToTime (errStore w1) !! generalErr (errStore w1) = Some tg ∧
    ((∀ k, (n ≤ k ≤ S n)%nat → clk k < tg + 10 * time_Minute) →
     result (canSendMail e') (later (errStore w1) clk n evs) = false).
Proof.
  intros e e' w clk n evs He' w1 tg. subst w1.
  rewrite markErrAsSent_store. simpl.
  assert (Hg : (<[Message e := clock w (S (ticks w))]>
                  (<[generalErr (errStore w) := clock w (ticks w)]>
                     (errToTime (errStore w))))
               !! generalErr (errStore w) = Some tg).
  { subst tg.
    destruct (decide (Message e = generalErr (errStore w))) as [Heq | Hne].
    - rewrite Heq. apply lookup_insert_eq.
    - rewrite lookup_insert_ne by exact Hne. apply lookup_insert_eq. }
  split; [reflexivity|]. split; [exact Hg|].
  intros Hin.
  apply (canSendMail_message_fresh e' _ tg).
  - simpl. rewrite He'. exact Hg.
  - intros k Hk. simpl in *. apply Hin. exact Hk.
Qed.

Lemma text_equal_to_global_key_waits_ten_minutes_witness :
  errToTime (errStore (after (markErrAsSent entry_disk_full) world_one_hour))
    !! "general" = Some (3600 * time_Second) ∧
  result (canSendMail entry_general)
         (later (errStore (after (markErrAsSent entry_disk_full)
                                 world_one_hour))
                (fun _ => 3600 * time_Second + 2 * time_Minute) 0 [])
    = false ∧
  result (canSendMail entry_round_trip)
         (later (errStore (after (markErrAsSent entry_disk_full)
                                 world_one_hour))
                (fun _ => 3600 * time_Second + 2 * time_Minute) 0 [])
    = true.
Proof.
  destruct (text_equal_to_global_key_waits_ten_minutes
              entry_disk_full entry_general world_one_hour
              (fun _ => 3600 * time_Second + 2 * time_Minute) 0%nat []
              eq_refl)
    as (_ & Hg & Hsupp).
  split; [exact Hg|]. split; [|vm_compute; reflexivity].
  apply Hsupp. intros k _. vm_compute. reflexivity.
Defined.

(** ** The plain transaction, step by step *)

Section PlainTransaction.

Context `{GoLib}.

(** Everything [MailHook.Fire] sends out, and what it returns. *)
Lemma MailHook_Fire_wire_result env hook e w :
  wire (after (MailHook.Fire env hook e) w) =
  (wire w ++
   EvDial (MailHook_addr hook) ::
   match dial_err env with
   | Some _ => []
   | None =>
       (if result (canSendMail e) w then
          EvMail (MailHook.sender hook) ::
          match mail_err env with
          | Some _ => []
          | None =>
              EvRcpt (MailHook.recipient hook) ::
              match rcpt_err env with
              | Some _ => []
              | None =>
                  EvData ::
                  match data_err env with
                  | Some _ => []
                  | None =>
                      [EvWrite (createMessage e (MailHook.appName hook));
                       EvDataClose]
                  end
              end
          end
        else []) ++ [EvClientClose]
   end)%list ∧
  result (MailHook.Fire env hook e) w =
  match dial_err env with
  | Some err => Some err
  | None =>
      if result (canSendMail e) w then
        first_error [mail_err env; rcpt_err env; data_err env; write_err env]
      else None
  end.
Proof.
  pose proof (canSendMail_store e w) as (_ & _ & Hw & _).
  unfold result, after in *. unfold MailHook.Fire, MailHook_addr, bind, emit.
  destruct (dial_err env) as [err|]; [split; reflexivity|].
  rewrite canSendMail_add_wire. unfold result, after.
  destruct (canSendMail e w) as [ok w1]. simpl in Hw. simpl.
  destruct ok; simpl; unfold ret.
  2:{ simpl. rewrite Hw, <- app_assoc. split; reflexivity. }
  destruct (mail_err env) as [e1|]; simpl;
    [rewrite Hw, <- !app_assoc; split; reflexivity|].
  destruct (rcpt_err env) as [e2|]; simpl;
    [rewrite Hw, <- !app_assoc; split; reflexivity|].
  destruct (data_err env) as [e3|]; simpl;
    [rewrite Hw, <- !app_assoc; split; reflexivity|].
  destruct (write_err env) as [e4|]; simpl;
    rewrite Hw, <- !app_assoc; split; reflexivity.
Qed.

(** X5. [MailHook.Fire] dials once and releases what it acquired on every
    way out: after an accepted dial the last thing it does is close the
    client, and it closes the data writer exactly when the server
    accepted [DATA]; after a refused dial it does nothing more. *)
Theorem MailHook_Fire_releases_connection :
  ∀ env hook e w,
    ∃ evs,
      wire (after (MailHook.Fire env hook e) w) =
        (wire w ++ EvDial (MailHook_addr hook) :: evs)%list ∧
      (∀ a, EvDial a ∉ evs) ∧
      (dial_err env ≠ None → evs = []) ∧
      (dial_err env = None →
       ∃ mid, evs = (mid ++ [EvClientClose])%list ∧ EvClientClose ∉ mid) ∧
      (EvDataClose ∈ evs ↔ EvData ∈ evs ∧ data_err env = None).
Proof.
  intros env hook e w.
  destruct (MailHook_Fire_wire_result env hook e w) as [Hwire _].
  eexists. split; [exact Hwire|].
  destruct (dial_err env) as [err|].
  { split; [|split; [reflexivity|split; [discriminate|]]].
    - intros a Hin. apply elem_of_nil in Hin. contradiction.
    - rewrite !elem_of_nil. tauto. }
  split; [|split; [congruence|split]].
  - intros a.
    destruct (result (canSendMail e) w), (mail_err env), (rcpt_err env),
      (data_err env); simpl;
      rewrite ?elem_of_cons, elem_of_nil; intuition discriminate.
  - intros _. eexists. split; [reflexivity|].
    destruct (result (canSendMail e) w), (mail_err env), (rcpt_err env),
      (data_err env); simpl;
      rewrite ?elem_of_cons, elem_of_nil; intuition discriminate.
  - destruct (result (canSendMail e) w), (mail_err env), (rcpt_err env),
      (data_err env); simpl;
      rewrite ?elem_of_cons, ?elem_of_nil; intuition discriminate.
Qed.

(** X6. [MailHook.Fire] hands the message to the server only at the end
    of an accepted envelope: a payload is written exactly when the dial
    succeeded, the store permits the record and the server accepted
    [MAIL], [RCPT] and [DATA]; the call then went through dial, sender,
    recipient, data, payload, end of data and close, in this order, with
    the hook's own sender and recipient and the composed message. *)
Theorem MailHook_Fire_payload_after_accepted_envelope :
  ∀ env hook e w,
    ∃ evs,
      wire (after (MailHook.Fire env hook e) w) = (wire w ++ evs)%list ∧
      ((∃ payload, EvWrite payload ∈ evs) ↔
       dial_err env = None ∧ result (canSendMail e) w = true ∧
       mail_err env = None ∧ rcpt_err env = None ∧ data_err env = None) ∧
      ((∃ payload, EvWrite payload ∈ evs) →
       evs = [EvDial (MailHook.host hook +:+ ":" +:+
                      strconv_Itoa (MailHook.port hook));
              EvMail (MailHook.sender hook);
              EvRcpt (MailHook.recipient hook);
              EvData;
              EvWrite (createMessage e (MailHook.appName hook));
              EvDataClose;
              EvClientClose]).
Proof.
  intros env hook e w.
  destruct (MailHook_Fire_wire_result env hook e w) as [Hwire _].
  eexists. split; [exact Hwire|].
  unfold MailHook_addr.
  destruct (dial_err env), (result (canSendMail e) w), (mail_err env),
    (rcpt_err env), (data_err env); simpl;
    (split; [split|]);
    try (intros [p Hin]; rewrite ?elem_of_cons, ?elem_of_nil in Hin;
         intuition discriminate);
    try (intros (? & ? & ? & ? & ?); discriminate);
    try reflexivity.
  intros _. eexists. rewrite !elem_of_cons. do 4 right. left. reflexivity.
Qed.

(** X7. What [MailHook.Fire] returns is the error of the first step that
    was refused, in the order dial, [MAIL], [RCPT], [DATA], payload; a
    suppressed record ends the call with nil once the dial succeeded, and
    nil is also the result when every step was accepted. *)
Theorem MailHook_Fire_returns_first_refusal :
  ∀ env hook e w,
    result (MailHook.Fire env hook e) w =
      first_error
        (dial_err env ::
         if result (canSendMail e) w
         then [mail_err env; rcpt_err env; data_err env; write_err env]
         else []) ∧
    (result (MailHook.Fire env hook e) w = None ↔
     dial_err env = None ∧
     (result (canSendMail e) w = false ∨
      (mail_err env = None ∧ rcpt_err env = None ∧ data_err env = None ∧
       write_err env = None))).
Proof.
  intros env hook e w.
  destruct (MailHook_Fire_wire_result env hook e w) as [_ Hres].
  rewrite Hres.
  destruct (dial_err env), (result (canSendMail e) w), (mail_err env),
    (rcpt_err env), (data_err env), (write_err env); simpl;
    (split; [reflexivity|]); intuition discriminate.
Qed.

End PlainTransaction.

(** ** The authenticated send *)

Section AuthenticatedSend.

Context `{GoLib}.

(** X8. [MailAuthHook.Fire] makes at most one call to the outside, never
    a second attempt: on a permitted record one [smtp.SendMail] to
    [host:port], authenticating for the hook's host with its user name
    and password, from its sender to its single recipient, whose result
    it returns; on a suppressed record no call at all, and nil. *)
Theorem MailAuthHook_Fire_one_send_or_none :
  ∀ env hook e w,
    wire (after (MailAuthHook.Fire env hook e) w) =
      (wire w ++
       if result (canSendMail e) w then
         [EvSendMail (MailAuthHook.host hook +:+ ":" +:+
                      strconv_Itoa (MailAuthHook.port hook))
                     (MailAuthHook.username hook) (MailAuthHook.password hook)
                     (MailAuthHook.host hook) (MailAuthHook.sender hook)
                     [MailAuthHook.recipient hook]
                     (createMessage e (MailAuthHook.appName hook))]
       else [])%list ∧
    result (MailAuthHook.Fire env hook e) w =
      (if result (canSendMail e) w then sendmail_err env else None).
Proof.
  intros env hook e w.
  pose proof (canSendMail_store e w) as (_ & _ & Hw & _).
  unfold result, after in *. unfold MailAuthHook.Fire, bind, emit.
  destruct (canSendMail e w) as [ok w1]. simpl in *.
  destruct ok; simpl.
  - destruct (sendmail_err env); simpl; rewrite Hw; split; reflexivity.
  - unfold ret. simpl. rewrite Hw, app_nil_r. split; reflexivity.
Qed.

End AuthenticatedSend.

(** ** The check is read-only *)

(** X9. [canSendMail] only reads: store, clock and trace are as before.
    It reads the clock once for each stamped key it looks at: not at all
    while neither key is stamped, and the text's key is not looked at when
    the global window is still open. *)
Theorem canSendMail_reads_only :
  ∀ e w,
    let w' := after (canSendMail e) w in
    let m := errToTime (errStore w) in
    errStore w' = errStore w ∧ clock w' = clock w ∧ wire w' = wire w ∧
    ticks w' =
      match m !! generalErr (errStore w) with
      | None =>
          match m !! Message e with
          | None => ticks w
          | Some _ => S (ticks w)
          end
      | Some tg =>
          if clock w (ticks w) <? tg + time_Minute then S (ticks w)
          else match m !! Message e with
               | None => S (ticks w)
               | Some _ => S (S (ticks w))
               end
      end.
Proof.
  intros e w w' m. subst w' m.
  pose proof (canSendMail_store e w) as (Hs & Hc & Hw & _).
  repeat split; try assumption.
  unfold after. rewrite canSendMail_run. cbv zeta.
  rewrite checkErrorTime_run.
  destruct (errToTime (errStore w) !! generalErr (errStore w)) as [tg|];
    simpl.
  - destruct (clock w (ticks w) <? tg + time_Minute); simpl; [reflexivity|].
    rewrite checkErrorTime_run. simpl.
    destruct (errToTime (errStore w) !! Message e); reflexivity.
  - rewrite checkErrorTime_run.
    destruct (errToTime (errStore w) !! Message e); reflexivity.
Qed.

(** ** Growth of the store *)

Lemma size_insert_bounds (m : gmap string Z) (k : string) (t : Z) :
  (size m ≤ size (<[k := t]> m) ≤ S (size m))%nat.
Proof.
  rewrite map_size_insert. destruct (m !! k); simpl; lia.
Qed.

Section Growth.

Context `{GoLib}.

(** X10. The store grows by at most two keys for each call of [Fire] and
    never shrinks; stamping a record whose two keys are already there
    adds no key. *)
Theorem Fire_adds_at_most_two_keys :
  ∀ env (h : Hook) e w,
    let m := errToTime (errStore w) in
    let m' := errToTime (errStore (after (Hook_Fire env h e) w)) in
    (size m ≤ size m' ≤ size m + 2)%nat ∧
    (is_Some (m !! generalErr (errStore w)) → is_Some (m !! Message e) →
     size m' = size m).
Proof.
  intros env h e w m m'. subst m m'.
  pose proof (canSendMail_store e w) as (Hs & _).
  destruct (marks_or_not env h e w) as [Hm | Hm].
  - rewrite (marks_store env h e w Hm), markErrAsSent_store, Hs. simpl.
    split.
    + rewrite !map_size_insert.
      destruct (_ !! Message e); destruct (_ !! generalErr (errStore w));
        simpl; lia.
    + intros Hg [tm Hmsg].
      rewrite map_size_insert_Some.
      * rewrite map_size_insert_Some by exact Hg. reflexivity.
      * destruct (decide (generalErr (errStore w) = Message e)) as [<- | Hne];
          [rewrite lookup_insert_eq; eauto|].
        rewrite lookup_insert_ne by exact Hne. eauto.
  - rewrite (not_marks_store env h e w Hm). split; [lia | reflexivity].
Qed.

End Growth.

(** ** Validation and setup *)

Section SetupSteps.

Context `{GoLib}.

(** X11. [checkMailHookParams] dials first and looks at the addresses
    only once the endpoint answered: the error it returns is the dial's,
    else the sender's, else the recipient's (an invalid sender hides an
    invalid recipient).  It dials once with three seconds of timeout and
    closes the connection exactly when it was opened, also when an
    address is rejected; the store is not touched. *)
Theorem checkMailHookParams_error_precedence :
  ∀ env host port sender recipient w,
    let w' := after (checkMailHookParams env host port sender recipient) w in
    result (checkMailHookParams env host port sender recipient) w =
      first_error [dial_timeout_err env; mail_ParseAddress sender;
                   mail_ParseAddress recipient] ∧
    wire w' =
      (wire w ++
       EvDialTimeout (host +:+ ":" +:+ strconv_Itoa port) (3 * 1000000000) ::
       if decide (dial_timeout_err env = None) then [EvConnClose] else [])%list ∧
    errStore w' = errStore w ∧ ticks w' = ticks w.
Proof.
  intros env host port sender recipient w w'. subst w'.
  unfold checkMailHookParams. run.
  destruct (dial_timeout_err env) as [err|]; simpl.
  - repeat split.
  - rewrite <- app_assoc. simpl.
    destruct (mail_ParseAddress sender); [repeat split|].
    destruct (mail_ParseAddress recipient); repeat split.
Qed.

(** The logger a successful setup leaves, and the world around it. *)
Lemma UsefulSetupLogrus_run env log mailHostPort format level appName
      sender recipient w :
  UsefulSetupLogrus env log mailHostPort format level appName sender
                    recipient w =
  match net_SplitHostPort mailHostPort with
  | inr err => (set_Out log os_Stdout, Some err, w)
  | inl (host, strPort) =>
    match strconv_Atoi strPort with
    | inr err => (set_Out log os_Stdout, Some err, w)
    | inl port =>
      match logrus_ParseLevel level with
      | inr err => (set_Out log os_Stdout, Some err, w)
      | inl lvl =>
        let log1 := Hooks_Add (SetLevel (set_Out log os_Stdout) lvl)
                      (HStderr (StderrHook.Mk (MkTextFormatter false))) in
        let w1 := after (checkMailHookParams env host port sender recipient) w in
        match result (checkMailHookParams env host port sender recipient) w with
        | Some err => (log1, Some err, w1)
        | None =>
            (SetFormatter
               (Hooks_Add log1
                  (HMail (MailHook.Mk appName host port sender recipient)))
               (if String.eqb format "json" then JSONFormatter
                else TextFormatterOf (MkTextFormatter true)),
             None, w1)
        end
      end
    end
  end.
Proof.
  unfold UsefulSetupLogrus.
  destruct (net_SplitHostPort mailHostPort) as [[host strPort]|e1];
    [|reflexivity].
  destruct (strconv_Atoi strPort) as [port|e2]; [|reflexivity].
  destruct (logrus_ParseLevel level) as [lvl|e3]; [|reflexivity].
  unfold NewStderrHook, NewMailHook, bind, result, after. cbv zeta.
  destruct (checkMailHookParams env host port sender recipient w)
    as [[err|] w1]; simpl; [reflexivity|].
  destruct (String.eqb format "json"); reflexivity.
Qed.

(** X12. [UsefulSetupLogrus] returns nil exactly when the endpoint splits
    into host and port, the port is a number, the level name is known,
    the endpoint accepts the dial and both addresses are valid.  The
    logger then writes to standard output at the parsed level, formats as
    JSON exactly when the format is the lower-case word json and as text
    with full timestamps for any other word, and at each of warn, error,
    fatal and panic has the console hook and then the mail hook appended
    to the hooks it had; the hooks of the other levels are as before. *)
Theorem UsefulSetupLogrus_success :
  ∀ env log mailHostPort format level appName sender recipient w,
    let r := result (UsefulSetupLogrus env log mailHostPort format level
                                       appName sender recipient) w in
    (snd r = None ↔
     ∃ host strPort port lvl,
       net_SplitHostPort mailHostPort = inl (host, strPort) ∧
       strconv_Atoi strPort = inl port ∧
       logrus_ParseLevel level = inl lvl ∧
       dial_timeout_err env = None ∧
       mail_ParseAddress sender = None ∧
       mail_ParseAddress recipient = None) ∧
    (snd r = None →
     ∃ host strPort port lvl,
       net_SplitHostPort mailHostPort = inl (host, strPort) ∧
       strconv_Atoi strPort = inl port ∧
       logrus_ParseLevel level = inl lvl ∧
       Out (fst r) = os_Stdout ∧
       LogLevel (fst r) = lvl ∧
       LogFormatter (fst r) =
         (if decide (format = "json") then JSONFormatter
          else TextFormatterOf (MkTextFormatter true)) ∧
       ∀ l,
         Hooks (fst r) !! l =
         if decide (l ∈ [WarnLevel; PanicLevel; FatalLevel; ErrorLevel])
         then Some (default [] (Hooks log !! l) ++
                    [HStderr (StderrHook.Mk (MkTextFormatter false));
                     HMail (MailHook.Mk appName host port sender recipient)])%list
         else Hooks log !! l).
Proof.
  intros env log mailHostPort format level appName sender recipient w r.
  subst r. unfold result.
  rewrite UsefulSetupLogrus_run.
  destruct (net_SplitHostPort mailHostPort) as [[host strPort]|e1] eqn:Hsp.
  2:{ simpl. split; [split; [discriminate|]|discriminate].
      intros (? & ? & ? & ? & F & _). discriminate. }
  destruct (strconv_Atoi strPort) as [port|e2] eqn:Hat.
  2:{ simpl. split; [split; [discriminate|]|discriminate].
      intros (? & ? & ? & ? & F & F' & _). injection F as <- <-.
      congruence. }
  destruct (logrus_ParseLevel level) as [lvl|e3] eqn:Hlv.
  2:{ simpl. split; [split; [discriminate|]|discriminate].
      intros (? & ? & ? & ? & _ & _ & F & _). discriminate. }
  cbv zeta.
  destruct (checkMailHookParams_run env host port sender recipient w)
    as (Hres & _).
  unfold result in Hres. unfold result. rewrite Hres.
  destruct (dial_timeout_err env) as [ed|] eqn:Hd; simpl.
  { split; [split; [discriminate|]|discriminate].
    intros (? & ? & ? & ? & _ & _ & _ & F & _). discriminate. }
  destruct (mail_ParseAddress sender) as [es|] eqn:Hs; simpl.
  { split; [split; [discriminate|]|discriminate].
    intros (? & ? & ? & ? & _ & _ & _ & _ & F & _). discriminate. }
  destruct (mail_ParseAddress recipient) as [er|] eqn:Hr; simpl.
  { split; [split; [discriminate|]|discriminate].
    intros (? & ? & ? & ? & _ & _ & _ & _ & _ & F). discriminate. }
  split.
  - split; [intros _|reflexivity].
    exists host, strPort, port, lvl. repeat split; assumption.
  - intros _. exists host, strPort, port, lvl.
    split; [reflexivity|]. split; [exact Hat|]. split; [reflexivity|].
    split; [reflexivity|]. split; [reflexivity|]. split.
    + destruct (String.eqb_spec format "json") as [-> | Hne].
      * rewrite decide_True by reflexivity. reflexivity.
      * rewrite decide_False by exact Hne. reflexivity.
    + intros l.
      destruct (decide (l ∈ [WarnLevel; PanicLevel; FatalLevel; ErrorLevel]))
        as [Hin | Hnot].
      * rewrite LevelHooks_Add_level by (rewrite Hook_Levels_eq; exact Hin).
        rewrite LevelHooks_Add_level by (rewrite Hook_Levels_eq; exact Hin).
        simpl. rewrite <- app_assoc. reflexivity.
      * rewrite !LevelHooks_Add_other by (rewrite Hook_Levels_eq; exact Hnot).
        reflexivity.
Qed.

(** X13. Setup fails fast and stays local: when the endpoint does not
    split, the port is not a number or the level name is unknown, it
    returns before any call to the outside; otherwise it makes exactly
    one dial, to the host and port of the endpoint, and closes the
    connection it got.  In no case does it read the clock or touch the
    suppression store. *)
Theorem UsefulSetupLogrus_outside_calls :
  ∀ env log mailHostPort format level appName sender recipient w,
    let w' := after (UsefulSetupLogrus env log mailHostPort format level
                                       appName sender recipient) w in
    errStore w' = errStore w ∧ ticks w' = ticks w ∧ clock w' = clock w ∧
    wire w' =
      (wire w ++
       match net_SplitHostPort mailHostPort with
       | inr _ => []
       | inl (host, strPort) =>
           match strconv_Atoi strPort, logrus_ParseLevel level with
           | inl port, inl _ =>
               EvDialTimeout (host +:+ ":" +:+ strconv_Itoa port)
                             (3 * 1000000000) ::
               if decide (dial_timeout_err env = None) then [EvConnClose]
               else []
           | _, _ => []
           end
       end)%list.
Proof.
  intros env log mailHostPort format level appName sender recipient w w'.
  subst w'. unfold after.
  rewrite UsefulSetupLogrus_run.
  destruct (net_SplitHostPort mailHostPort) as [[host strPort]|e1];
    [|simpl; rewrite app_nil_r; repeat split].
  destruct (strconv_Atoi strPort) as [port|e2];
    [|simpl; rewrite app_nil_r; repeat split].
  destruct (logrus_ParseLevel level) as [lvl|e3];
    [|simpl; rewrite app_nil_r; repeat split].
  cbv zeta.
  assert (Hrest :
    let w1 := after (checkMailHookParams env host port sender recipient) w in
    errStore w1 = errStore w ∧ ticks w1 = ticks w ∧ clock w1 = clock w ∧
    wire w1 =
      (wire w ++
       EvDialTimeout (host +:+ ":" +:+ strconv_Itoa port) (3 * 1000000000) ::
       if decide (dial_timeout_err env = None) then [EvConnClose] else [])%list).
  { unfold checkMailHookParams. run.
    destruct (dial_timeout_err env); simpl; repeat split.
    rewrite <- app_assoc. reflexivity. }
  cbv zeta in Hrest. unfold result, after in *.
  destruct (checkMailHookParams env host port sender recipient w)
    as [[err|] w1]; simpl in *; exact Hrest.
Qed.

End SetupSteps.

(** ** Setup and dispatch together *)

Section SetupAndDispatch.

Context `{GoLib}.

(** The hooks of a logger after a successful setup. *)
Lemma UsefulSetupLogrus_hooks env log mailHostPort format level appName
      sender recipient w log' :
  result (UsefulSetupLogrus env log mailHostPort format level appName
                            sender recipient) w = (log', None) →
  ∃ host strPort port,
    net_SplitHostPort mailHostPort = inl (host, strPort) ∧
    strconv_Atoi strPort = inl port ∧
    ∀ l,
      Hooks log' !! l =
      if decide (l ∈ [WarnLevel; PanicLevel; FatalLevel; ErrorLevel])
      then Some (default [] (Hooks log !! l) ++
                 [HStderr (StderrHook.Mk (MkTextFormatter false));
                  HMail (MailHook.Mk appName host port sender recipient)])%list
      else Hooks log !! l.
Proof.
  unfold result. rewrite UsefulSetupLogrus_run.
  destruct (net_SplitHostPort mailHostPort) as [[host strPort]|e1] eqn:Hsp;
    [|discriminate].
  destruct (strconv_Atoi strPort) as [port|e2] eqn:Hat; [|discriminate].
  destruct (logrus_ParseLevel level) as [lvl|e3]; [|discriminate].
  cbv zeta.
  destruct (result (checkMailHookParams env host port sender recipient) w);
    [discriminate|].
  simpl. intros [= <-]. exists host, strPort, port.
  split; [reflexivity|]. split; [exact Hat|].
  intros l. simpl.
  destruct (decide (l ∈ [WarnLevel; PanicLevel; FatalLevel; ErrorLevel]))
    as [Hin | Hnot].
  - rewrite LevelHooks_Add_level by (rewrite Hook_Levels_eq; exact Hin).
    rewrite LevelHooks_Add_level by (rewrite Hook_Levels_eq; exact Hin).
    simpl. rewrite <- app_assoc. reflexivity.
  - rewrite !LevelHooks_Add_other by (rewrite Hook_Levels_eq; exact Hnot).
    reflexivity.
Qed.

(** X14. Setup is not idempotent: a second successful call on the same
    logger appends the console hook and the mail hook once more, so each
    of the four levels then holds both hooks twice. *)
Theorem UsefulSetupLogrus_twice_registers_twice :
  ∀ env1 env2 log mailHostPort format level appName sender recipient
    w1 w2 log1 log2,
    result (UsefulSetupLogrus env1 log mailHostPort format level appName
                              sender recipient) w1 = (log1, None) →
    result (UsefulSetupLogrus env2 log1 mailHostPort format level appName
                              sender recipient) w2 = (log2, None) →
    ∃ host strPort port,
      net_SplitHostPort mailHostPort = inl (host, strPort) ∧
      strconv_Atoi strPort = inl port ∧
      ∀ l,
        l ∈ [WarnLevel; PanicLevel; FatalLevel; ErrorLevel] →
        Hooks log2 !! l =
        Some (default [] (Hooks log !! l) ++
              [HStderr (StderrHook.Mk (MkTextFormatter false));
               HMail (MailHook.Mk appName host port sender recipient);
               HStderr (StderrHook.Mk (MkTextFormatter false));
               HMail (MailHook.Mk appName host port sender recipient)])%list.
Proof.
  intros env1 env2 log mailHostPort format level appName sender recipient
         w1 w2 log1 log2 H1 H2.
  destruct (UsefulSetupLogrus_hooks _ _ _ _ _ _ _ _ _ _ H1)
    as (host & strPort & port & Hsp & Hat & Hk1).
  destruct (UsefulSetupLogrus_hooks _ _ _ _ _ _ _ _ _ _ H2)
    as (host' & strPort' & port' & Hsp' & Hat' & Hk2).
  rewrite Hsp in Hsp'. injection Hsp' as <- <-.
  rewrite Hat in Hat'. injection Hat' as <-.
  exists host, strPort, port. split; [exact Hsp|]. split; [exact Hat|].
  intros l Hl. rewrite Hk2, decide_True by exact Hl.
  rewrite Hk1, decide_True by exact Hl. simpl.
  rewrite <- app_assoc. reflexivity.
Qed.

(** X15. On a logger that had no hooks, setup makes every record at warn,
    error, fatal or panic go to the console first and to the mail hook
    second: the dispatch writes the formatted line and the stack trace to
    the error stream and then runs [MailHook.Fire], whose result it
    returns. *)
Theorem setup_dispatches_console_then_mail :
  ∀ env log mailHostPort format level appName sender recipient w0 log'
    env' l e w line,
    result (UsefulSetupLogrus env log mailHostPort format level appName
                              sender recipient) w0 = (log', None) →
    Hooks log !! l = None →
    l ∈ [WarnLevel; PanicLevel; FatalLevel; ErrorLevel] →
    TextFormatter_Format (MkTextFormatter false) e = (line, None) →
    ∃ host strPort port,
      net_SplitHostPort mailHostPort = inl (host, strPort) ∧
      strconv_Atoi strPort = inl port ∧
      LevelHooks_Fire env' (Hooks log') l e w =
      MailHook.Fire env' (MailHook.Mk appName host port sender recipient) e
                    (add_wire w [EvStderr (line +:+ debug_Stack)]).
Proof.
  intros env log mailHostPort format level appName sender recipient w0 log'
         env' l e w line Hsetup Hnone Hl Hfmt.
  destruct (UsefulSetupLogrus_hooks _ _ _ _ _ _ _ _ _ _ Hsetup)
    as (host & strPort & port & Hsp & Hat & Hk).
  exists host, strPort, port. split; [exact Hsp|]. split; [exact Hat|].
  unfold LevelHooks_Fire. rewrite Hk, decide_True by exact Hl.
  unfold Level in *. rewrite Hnone. simpl.
  unfold bind, StderrHook.Fire, StderrHook.Fprintf_stderr, emit, ret. simpl.
  rewrite Hfmt. simpl.
  destruct (MailHook.Fire env' (MailHook.Mk appName host port sender recipient)
              e (add_wire w [EvStderr (line +:+ debug_Stack)]))
    as [[err|] w2]; reflexivity.
Qed.

End SetupAndDispatch.

Lemma UsefulSetupLogrus_twice_registers_twice_witness :
  ∃ log1 log2,
    result (UsefulSetupLogrus (H := ref_lib) env_ok logrus_New
              "localhost:25" "text" "warn" "svc"
              "alerts@example.org" "ops@example.org") world_fresh
      = (log1, None) ∧
    result (UsefulSetupLogrus (H := ref_lib) env_ok log1
              "localhost:25" "text" "warn" "svc"
              "alerts@example.org" "ops@example.org") world_fresh
      = (log2, None) ∧
    Hooks log2 !! ErrorLevel =
      Some [HStderr (StderrHook.Mk (MkTextFormatter false)); HMail hook_plain;
            HStderr (StderrHook.Mk (MkTextFormatter false)); HMail hook_plain].
Proof.
  eexists. eexists.
  split; [vm_compute; reflexivity|]. split; [vm_compute; reflexivity|].
  destruct (UsefulSetupLogrus_twice_registers_twice (H := ref_lib)
              env_ok env_ok logrus_New "localhost:25" "text" "warn" "svc"
              "alerts@example.org" "ops@example.org" world_fresh world_fresh
              _ _ eq_refl eq_refl)
    as (host & strPort & port & Hsp & Hat & Hk).
  vm_compute in Hsp. injection Hsp as <- <-.
  vm_compute in Hat. injection Hat as <-.
  rewrite Hk; [reflexivity|].
  rewrite !elem_of_cons. right. right. right. left. reflexivity.
Defined.

Lemma setup_dispatches_console_then_mail_witness :
  ∃ log',
    result (UsefulSetupLogrus (H := ref_lib) env_ok logrus_New
              "localhost:25" "text" "warn" "svc"
              "alerts@example.org" "ops@example.org") world_fresh
      = (log', None) ∧
    LevelHooks_Fire (H := ref_lib) env_rcpt_refused (Hooks log') ErrorLevel
                    entry_disk_full world_fresh =
    MailHook.Fire (H := ref_lib) env_rcpt_refused hook_plain entry_disk_full
      (add_wire world_fresh
         [EvStderr ("level=error msg=disk full" +:+ LF +:+
                    "goroutine 1 [running]:" +:+ LF)]).
Proof.
  eexists. split; [vm_compute; reflexivity|].
  destruct (setup_dispatches_console_then_mail (H := ref_lib)
              env_ok logrus_New "localhost:25" "text" "warn" "svc"
              "alerts@example.org" "ops@example.org" world_fresh _
              env_rcpt_refused ErrorLevel entry_disk_full world_fresh
              ("level=error msg=disk full" +:+ LF)
              eq_refl eq_refl)
    as (host & strPort & port & Hsp & Hat & Hfire).
  - rewrite !elem_of_cons. right. right. right. left. reflexivity.
  - vm_compute. reflexivity.
  - vm_compute in Hsp. injection Hsp as <- <-.
    vm_compute in Hat. injection Hat as <-.
    etransitivity; [exact Hfire | vm_compute; reflexivity].
Defined.
